(** * Lighthouse bot: decision engine and join loop of [main.py]

    A shallow embedding of [BotGame] (the per-turn decision engine) and of
    [BotComs.wait_to_join_game] (the join retry loop), with the properties
    of the turn function and of the join loop proved below.

    Python integers are unbounded, so coordinates, energies and counters
    are [Z].  The protobuf messages of [game_pb2] are generated code that is
    not part of the sources; their records below carry the fields that
    [main.py] reads or writes. *)

From Stdlib Require Import String ZArith List Bool Lia.
Import ListNotations.
Local Open Scope string_scope.
Local Open Scope list_scope.
Local Open Scope Z_scope.

(** ** Messages of [game_pb2] *)

Module game_pb2.

(** [enum Action]: the four action kinds. *)
Inductive Action := PASS | MOVE | ATTACK | CONNECT.

Record Position := mkPosition { X : Z; Y : Z }.

(** A player identifier, or none (an unowned lighthouse, a bot that has
    not joined). *)
Definition PlayerRef := option Z.

Record Lighthouse := mkLighthouse {
  Lighthouse_Position : Position;
  Lighthouse_Owner : PlayerRef
}.

Record Connection := mkConnection {
  Connection_From : Position;
  Connection_To : Position;
  Connection_CanConnect : bool
}.

Record NewTurn := mkNewTurn {
  NewTurn_Position : Position;
  NewTurn_Energy : Z;
  NewTurn_Lighthouses : list Lighthouse;
  NewTurn_Connections : list Connection
}.

(** [Energy] is [None] when the constructor call does not pass it. *)
Record NewAction := mkNewAction {
  NewAction_Action : Action;
  NewAction_Destination : Position;
  NewAction_Energy : option Z
}.

(** The initial snapshot is stored and never read: kept as raw bytes. *)
Inductive NewPlayerInitialState := InitialStateBytes (raw : list Byte.byte).

End game_pb2.
Import game_pb2.

(** ** Python values used by the bot *)

(** A position as the code holds it: the tuple [(x, y)]. *)
Definition pos : Type := (Z * Z)%type.

Definition pos_eqb (a b : pos) : bool :=
  (fst a =? fst b) && (snd a =? snd b).

(** [lh.Owner != self.player_num] compares two player references. *)
Definition PlayerRef_eqb (a b : PlayerRef) : bool :=
  match a, b with
  | Some x, Some y => x =? y
  | None, None => true
  | _, _ => false
  end.

(** [x in d] for a deque or list of positions. *)
Definition contains (d : list pos) (x : pos) : bool := existsb (pos_eqb x) d.

(** A dict as an association list in insertion order: assigning to a key
    that is already present replaces its value and keeps its place. *)
Module PyDict.
Section Dict.
Context {V : Type}.

Definition t := list (pos * V).

Fixpoint set (k : pos) (v : V) (d : t) : t :=
  match d with
  | [] => [(k, v)]
  | (k', v') :: r =>
      if pos_eqb k' k then (k', v) :: r else (k', v') :: set k v r
  end.

Fixpoint get (k : pos) (d : t) : option V :=
  match d with
  | [] => None
  | (k', v') :: r => if pos_eqb k' k then Some v' else get k r
  end.

Definition keys (d : t) : list pos := map fst d.
End Dict.
End PyDict.

(** [collections.deque]: [append] adds on the right and, when the length
    then exceeds [maxlen], drops the leftmost item. *)
Module Deque.
Definition append {A : Type} (maxlen : nat) (d : list A) (x : A) : list A :=
  let d' := d ++ [x] in
  if (maxlen <? length d')%nat then tl d' else d'.
End Deque.

(** The builtin [min(iterable, key=...)]: the running best is replaced only
    by an item whose key is strictly smaller, so the first minimum wins;
    on an empty iterable [min] raises, which is [None] here. *)
Fixpoint min_from {A : Type} (key : A -> Z) (best : A) (l : list A) : A :=
  match l with
  | [] => best
  | x :: r => if key x <? key best then min_from key x r else min_from key best r
  end.

Definition py_min {A : Type} (key : A -> Z) (l : list A) : option A :=
  match l with
  | [] => None
  | x :: r => Some (min_from key x r)
  end.

(** ** [class BotGame] *)

(** [BotGameTurn(turn, action)] *)
Record BotGameTurn := mkBotGameTurn {
  turn : NewTurn;
  action : NewAction
}.

Record BotGame := mkBotGame {
  player_num : PlayerRef;
  initial_state : option NewPlayerInitialState;
  turn_states : list BotGameTurn;
  visited : list pos;
  target : option pos;
  countT : Z
}.

(** [deque(maxlen=3)] *)
Definition visited_maxlen : nat := 3.

(** [__init__] *)
Definition BotGame_init (player_num : PlayerRef) : BotGame :=
  {| player_num := player_num;
     initial_state := None;
     turn_states := [];
     visited := [];
     target := None;
     countT := 1 |}.

Definition manhattan_distance (a b : pos) : Z :=
  Z.abs (fst a - fst b) + Z.abs (snd a - snd b).

(** [self.visited.append(p)] *)
Definition visited_append (p : pos) (self : BotGame) : BotGame :=
  {| player_num := player_num self;
     initial_state := initial_state self;
     turn_states := turn_states self;
     visited := Deque.append visited_maxlen (visited self) p;
     target := target self;
     countT := countT self |}.

(** [self.target = tg] *)
Definition set_target (tg : option pos) (self : BotGame) : BotGame :=
  {| player_num := player_num self;
     initial_state := initial_state self;
     turn_states := turn_states self;
     visited := visited self;
     target := tg;
     countT := countT self |}.

(** [self.turn_states.append(BotGameTurn(turn, action)); self.countT += 1] *)
Definition record_turn (tn : NewTurn) (a : NewAction) (self : BotGame) : BotGame :=
  {| player_num := player_num self;
     initial_state := initial_state self;
     turn_states := turn_states self ++ [mkBotGameTurn tn a];
     visited := visited self;
     target := target self;
     countT := countT self + 1 |}.

Definition lighthouse_key (lh : Lighthouse) : pos :=
  (X (Lighthouse_Position lh), Y (Lighthouse_Position lh)).

(** The dict comprehension [{(lh.Position.X, lh.Position.Y): lh for lh in ...}]. *)
Definition lighthouses_dict (lhs : list Lighthouse) : PyDict.t :=
  fold_left (fun d lh => PyDict.set (lighthouse_key lh) lh d) lhs [].

(** "Choose a new target if needed".  A stored target is a 2-tuple, hence
    truthy: [not self.target] holds exactly when it is [None]. *)
Definition choose_target (my_pos : pos) (lighthouses : @PyDict.t Lighthouse)
    (self : BotGame) : BotGame :=
  let stale :=
    match target self with
    | None => true
    | Some tg => contains (visited self) tg
    end in
  if stale then
    let unvisited :=
      filter (fun p => negb (contains (visited self) p)) (PyDict.keys lighthouses) in
    match unvisited with
    | [] => set_target None self
    | _ :: _ => set_target (py_min (fun p => manhattan_distance my_pos p) unvisited) self
    end
  else self.

(** "Move toward target", then the common bookkeeping and return. *)
Definition move_toward_target (tn : NewTurn) (self : BotGame) : NewAction * BotGame :=
  let cx := X (NewTurn_Position tn) in
  let cy := Y (NewTurn_Position tn) in
  let action :=
    match target self with
    | Some (tx, ty) =>
        let dx := if tx =? cx then 0 else if tx >? cx then 1 else -1 in
        let dy := if ty =? cy then 0 else if ty >? cy then 1 else -1 in
        mkNewAction MOVE (mkPosition (cx + dx) (cy + dy)) None
    | None => mkNewAction PASS (mkPosition cx cy) None
    end in
  (action, record_turn tn action self).

(** A message object is always truthy, so [if lh_here:] asks whether the
    lookup found a lighthouse. *)
Definition new_turn_action (self : BotGame) (tn : NewTurn) : NewAction * BotGame :=
  let cx := X (NewTurn_Position tn) in
  let cy := Y (NewTurn_Position tn) in
  let my_pos := (cx, cy) in
  let lighthouses := lighthouses_dict (NewTurn_Lighthouses tn) in
  let lh_here := PyDict.get my_pos lighthouses in
  match lh_here with
  | Some lh =>
      if negb (PlayerRef_eqb (Lighthouse_Owner lh) (player_num self)) then
        let self := visited_append my_pos self in
        let action :=
          mkNewAction ATTACK (mkPosition cx cy) (Some (NewTurn_Energy tn)) in
        (action, record_turn tn action self)
      else
        let self := visited_append my_pos self in
        move_toward_target tn (choose_target my_pos lighthouses self)
  | None =>
      move_toward_target tn (choose_target my_pos lighthouses self)
  end.

(** The servicer's [Turn] handler calls [new_turn_action] once per turn
    on the same [BotGame]; [run] is a sequence of such calls. *)
Fixpoint run (self : BotGame) (turns : list NewTurn) : list NewAction * BotGame :=
  match turns with
  | [] => ([], self)
  | tn :: rest =>
      let '(a, self1) := new_turn_action self tn in
      let '(acts, self2) := run self1 rest in
      (a :: acts, self2)
  end.

(** The bot's position in a turn, as the tuple [my_pos]. *)
Definition my_pos (tn : NewTurn) : pos :=
  (X (NewTurn_Position tn), Y (NewTurn_Position tn)).

(** ** Observations for the examples *)

Definition lh (x y : Z) (o : PlayerRef) : Lighthouse :=
  mkLighthouse (mkPosition x y) o.

Definition obs (x y e : Z) (lhs : list Lighthouse) : NewTurn :=
  mkNewTurn (mkPosition x y) e lhs [].

(** ** Notions used in the statements *)

(** [lh] is the last lighthouse of [lhs] that stands at [p]. *)
Definition last_at (lhs : list Lighthouse) (p : pos) (lh : Lighthouse) : Prop :=
  exists l1 l2,
    lhs = l1 ++ lh :: l2 /\ lighthouse_key lh = p /\
    Forall (fun x => lighthouse_key x <> p) l2.

Definition attack_action (tn : NewTurn) : NewAction :=
  mkNewAction ATTACK
    (mkPosition (X (NewTurn_Position tn)) (Y (NewTurn_Position tn)))
    (Some (NewTurn_Energy tn)).

(** The result of a turn, by the path taken: the early return of the
    attack, the bot on its own lighthouse, no lighthouse under the bot. *)
Inductive turn_path (self : BotGame) (tn : NewTurn) : NewAction * BotGame -> Prop :=
| path_attack lh :
    PyDict.get (my_pos tn) (lighthouses_dict (NewTurn_Lighthouses tn)) = Some lh ->
    Lighthouse_Owner lh <> player_num self ->
    turn_path self tn
      (attack_action tn,
       record_turn tn (attack_action tn) (visited_append (my_pos tn) self))
| path_owned lh :
    PyDict.get (my_pos tn) (lighthouses_dict (NewTurn_Lighthouses tn)) = Some lh ->
    Lighthouse_Owner lh = player_num self ->
    turn_path self tn
      (move_toward_target tn
         (choose_target (my_pos tn) (lighthouses_dict (NewTurn_Lighthouses tn))
            (visited_append (my_pos tn) self)))
| path_elsewhere :
    PyDict.get (my_pos tn) (lighthouses_dict (NewTurn_Lighthouses tn)) = None ->
    turn_path self tn
      (move_toward_target tn
         (choose_target (my_pos tn) (lighthouses_dict (NewTurn_Lighthouses tn)) self)).

(** The guard of "choose a new target if needed". *)
Definition stale (self : BotGame) : bool :=
  match target self with
  | None => true
  | Some tg => contains (visited self) tg
  end.

Definition unvisited_keys (d : @PyDict.t Lighthouse) (self : BotGame) : list pos :=
  filter (fun p => negb (contains (visited self) p)) (PyDict.keys d).

(** ** [class BotComs]: the join loop *)

Record BotComs := mkBotComs {
  bot_id : option Z;
  bot_name : string;
  my_address : string;
  game_server_address : string;
  verbose : bool
}.

(** [__init__] *)
Definition BotComs_init (bot_name my_address game_server_address : string)
    (verbose : bool) : BotComs :=
  mkBotComs None bot_name my_address game_server_address verbose.

(** [timeout_to_response = 1  # 1 second] *)
Definition timeout_to_response : Z := 1.

(** What one [client.Join(player, timeout=...)] does: it returns a
    [PlayerID] message or raises [RpcError]. *)
Inductive JoinOutcome :=
| Returned (PlayerID : Z)
| RaisedRpcError (details : string).

(** The lines the loop prints. *)
Inductive printed_line :=
| JoinedGameWithID (PlayerID : Z)
| PlayerIdJson (PlayerID : Z)
| CouldNotJoinGame (details : string).

(** What the loop does to the outside world, in order. *)
Inductive join_event :=
| CallJoin (server name serverAddress : string) (timeout : Z)
| PrintLine (l : printed_line)
| Sleep (seconds : Z).

(** [Looping]: control is at the head of [while True]; [Exited]: the
    [break] was taken. *)
Inductive loop_status := Looping | Exited.

Definition join_config : Type := (loop_status * BotComs * list join_event)%type.

Definition set_bot_id (pid : Z) (self : BotComs) : BotComs :=
  mkBotComs (Some pid) (bot_name self) (my_address self)
    (game_server_address self) (verbose self).

Definition call_join (self : BotComs) : join_event :=
  CallJoin (game_server_address self) (bot_name self) (my_address self)
           timeout_to_response.

(** One pass through the body of [while True]. *)
Definition join_attempt (self : BotComs) (o : JoinOutcome)
    : loop_status * BotComs * list join_event :=
  match o with
  | Returned pid =>
      (Exited, set_bot_id pid self,
       [call_join self; PrintLine (JoinedGameWithID pid)]
         ++ (if verbose self then [PrintLine (PlayerIdJson pid)] else []))
  | RaisedRpcError details =>
      (Looping, self,
       [call_join self; PrintLine (CouldNotJoinGame details); Sleep 1])
  end.

(** A step of the loop, labelled by the outcome of its [Join] call.  Only
    a looping configuration takes a step. *)
Inductive join_step : join_config -> JoinOutcome -> join_config -> Prop :=
| step_attempt self tr o st' self' evs :
    join_attempt self o = (st', self', evs) ->
    join_step (Looping, self, tr) o (st', self', tr ++ evs).

Inductive join_steps : join_config -> list JoinOutcome -> join_config -> Prop :=
| steps_nil c : join_steps c [] c
| steps_cons c o c1 os c2 :
    join_step c o c1 -> join_steps c1 os c2 -> join_steps c (o :: os) c2.

(** [wait_to_join_game] against the outcomes of its successive [Join]
    calls; outcomes left over once the loop has exited are not consumed.
    The result is still [Looping] when every listed call has failed. *)
Fixpoint wait_to_join_game_from (self : BotComs) (tr : list join_event)
    (outcomes : list JoinOutcome) : join_config :=
  match outcomes with
  | [] => (Looping, self, tr)
  | o :: rest =>
      match join_attempt self o with
      | (Exited, self', evs) => (Exited, self', tr ++ evs)
      | (Looping, self', evs) => wait_to_join_game_from self' (tr ++ evs) rest
      end
  end.

Definition wait_to_join_game (self : BotComs) (outcomes : list JoinOutcome) : join_config :=
  wait_to_join_game_from self [] outcomes.

(** The events of one failed attempt. *)
Definition failed_attempt (self : BotComs) (details : string) : list join_event :=
  [call_join self; PrintLine (CouldNotJoinGame details); Sleep 1].

Definition sleeps (tr : list join_event) : list Z :=
  flat_map (fun e => match e with Sleep s => [s] | _ => [] end) tr.

(** The events of the successful attempt. *)
Definition joined_events (self : BotComs) (pid : Z) : list join_event :=
  [call_join self; PrintLine (JoinedGameWithID pid)]
    ++ (if verbose self then [PrintLine (PlayerIdJson pid)] else []).

(** ** [class ClientServer]: the servicer

    The gRPC server hands each inbound call to the method of its name.  The
    calls are taken here one at a time, in the order they arrive; the log
    lines of [ServerInterceptor], which carry clock readings, are left
    out. *)

(** [game_pb2.PlayerReady] *)
Record PlayerReady := mkPlayerReady { Ready : bool }.

Record ClientServer := mkClientServer {
  bg : BotGame;
  ClientServer_verbose : bool
}.

(** [__init__]: [self.bg = BotGame(bot_id)] *)
Definition ClientServer_init (bot_id : PlayerRef) (verbose : bool) : ClientServer :=
  mkClientServer (BotGame_init bot_id) verbose.

(** An inbound call: the method and its request message. *)
Inductive Request :=
| JoinRequest (name serverAddress : string)
| InitialStateRequest (request : NewPlayerInitialState)
| TurnRequest (request : NewTurn).

(** What a method returns. *)
Inductive Response :=
| ReturnedNone
| ReturnedPlayerReady (r : PlayerReady)
| ReturnedAction (a : NewAction).

(** The lines the servicer and [start_listening] print. *)
Inductive server_line :=
| StartingToListenOn (address : string)
| ReceivingInitialState
| ProcessingTurn (countT : Z)
| RequestJson (request : Request).

(** [self.bg.initial_state = request] *)
Definition set_initial_state (request : NewPlayerInitialState) (g : BotGame) : BotGame :=
  {| player_num := player_num g;
     initial_state := Some request;
     turn_states := turn_states g;
     visited := visited g;
     target := target g;
     countT := countT g |}.

Definition ClientServer_Join (self : ClientServer) (name serverAddress : string)
    : Response * ClientServer * list server_line :=
  (ReturnedNone, self, []).

Definition ClientServer_InitialState (self : ClientServer)
    (request : NewPlayerInitialState)
    : Response * ClientServer * list server_line :=
  (ReturnedPlayerReady (mkPlayerReady true),
   mkClientServer (set_initial_state request (bg self)) (ClientServer_verbose self),
   ReceivingInitialState
     :: (if ClientServer_verbose self
         then [RequestJson (InitialStateRequest request)] else [])).

Definition ClientServer_Turn (self : ClientServer) (request : NewTurn)
    : Response * ClientServer * list server_line :=
  let printed :=
    ProcessingTurn (countT (bg self))
      :: (if ClientServer_verbose self
          then [RequestJson (TurnRequest request)] else []) in
  let '(action, bg') := new_turn_action (bg self) request in
  (ReturnedAction action, mkClientServer bg' (ClientServer_verbose self), printed).

(** The server's dispatch of one call. *)
Definition handle (self : ClientServer) (r : Request)
    : Response * ClientServer * list server_line :=
  match r with
  | JoinRequest name serverAddress => ClientServer_Join self name serverAddress
  | InitialStateRequest request => ClientServer_InitialState self request
  | TurnRequest request => ClientServer_Turn self request
  end.

(** The calls of a session, handled in order. *)
Fixpoint serve (self : ClientServer) (requests : list Request)
    : list Response * ClientServer * list server_line :=
  match requests with
  | [] => ([], self, [])
  | r :: rest =>
      let '(resp, self1, out1) := handle self r in
      let '(resps, self2, out2) := serve self1 rest in
      (resp :: resps, self2, out1 ++ out2)
  end.

(** [BotComs.start_listening]: the servicer is built from the identifier
    the join stored, then serves until the process is interrupted. *)
Definition start_listening (self : BotComs) (requests : list Request)
    : list Response * ClientServer * list server_line :=
  let '(resps, cs, out) :=
    serve (ClientServer_init (bot_id self) (verbose self)) requests in
  (resps, cs, StartingToListenOn (my_address self) :: out).

(** ** [ensure_params] and [main] *)

(** What [parser.parse_args()] does with the command line.  The parser is
    the library's: it either exits (a required option absent, an option
    without its value, an unknown argument, [-h], ...) or returns the
    namespace, whose [bn], [la] and [gs] are strings, [bn] being the
    default ["random-bot"] when [--bn] is absent. *)
Inductive parse_args_result :=
| ParserExits
| Namespace (bn la gs : string).

Inductive params_result :=
| ParserExit
| RaisedValueError (message : string)
| Params (bn la gs : string).

(** The checks that follow [parse_args].  A string is falsy exactly when
    it is empty. *)
Definition ensure_params (argv : parse_args_result) : params_result :=
  match argv with
  | ParserExits => ParserExit
  | Namespace bn la gs =>
      if (bn =? "")%string then RaisedValueError "Bot name is required"
      else if (la =? "")%string then RaisedValueError "Listen address is required"
      else if (gs =? "")%string then RaisedValueError "Game server address is required"
      else Params bn la gs
  end.

Inductive main_result :=
| NotStarted (why : params_result)
| StillJoining (c : join_config)
| Served (joined : join_config)
         (session : list Response * ClientServer * list server_line).

(** [main], against what the parser does, the outcomes of the [Join]
    calls and the calls received once listening. *)
Definition main (argv : parse_args_result) (outcomes : list JoinOutcome)
    (requests : list Request) : main_result :=
  match ensure_params argv with
  | Params bot_name listen_address game_server_address =>
      let bot := BotComs_init bot_name listen_address game_server_address false in
      match wait_to_join_game bot outcomes with
      | (Exited, bot', tr) => Served (Exited, bot', tr) (start_listening bot' requests)
      | (Looping, bot', tr) => StillJoining (Looping, bot', tr)
      end
  | other => NotStarted other
  end.

(** The turns among the calls of a session. *)
Definition turns_of (requests : list Request) : list NewTurn :=
  flat_map (fun r => match r with TurnRequest tn => [tn] | _ => [] end) requests.

(** The actions among the responses of a session. *)
Definition actions_of (responses : list Response) : list NewAction :=
  flat_map (fun r => match r with ReturnedAction a => [a] | _ => [] end) responses.

(** The bot stands on a lighthouse of the observation. *)
Definition lighthouse_underfoot (tn : NewTurn) : bool :=
  existsb (fun lh => pos_eqb (lighthouse_key lh) (my_pos tn)) (NewTurn_Lighthouses tn).

(** The positions at which the turns of a run found the bot on a
    lighthouse, in order. *)
Definition lighthouse_stops (turns : list NewTurn) : list pos :=
  map my_pos (filter lighthouse_underfoot turns).

(** The last [n] items of a list. *)
Definition last_n {A : Type} (n : nat) (l : list A) : list A :=
  skipn (length l - n) l.

(** An event of the join loop of [self]: a [Join] call to its server with
    its name, its address and the fixed timeout, a printed line, or a sleep
    of one second. *)
Definition event_of_bot (self : BotComs) (e : join_event) : Prop :=
  match e with
  | CallJoin server name serverAddress timeout =>
      server = game_server_address self /\ name = bot_name self /\
      serverAddress = my_address self /\ timeout = 1
  | PrintLine _ => True
  | Sleep seconds => seconds = 1
  end.

(** [g] with its [initial_state] field replaced. *)
Definition with_initial_state (i : option NewPlayerInitialState) (g : BotGame)
    : BotGame :=
  {| player_num := player_num g;
     initial_state := i;
     turn_states := turn_states g;
     visited := visited g;
     target := target g;
     countT := countT g |}.

(** The snapshot of the last [InitialState] call of a session, or [i] when
    there is none. *)
Definition last_initial_state (i : option NewPlayerInitialState)
    (requests : list Request) : option NewPlayerInitialState :=
  fold_left (fun acc r => match r with InitialStateRequest s => Some s | _ => acc end)
            requests i.

(** The reply a call must get, by its method. *)
Definition reply_matches (r : Request) (resp : Response) : Prop :=
  match r with
  | JoinRequest _ _ => resp = ReturnedNone
  | InitialStateRequest _ => resp = ReturnedPlayerReady (mkPlayerReady true)
  | TurnRequest _ => exists a, resp = ReturnedAction a
  end.

(** The numbers of the "Processing turn" lines of a log. *)
Definition turn_numbers (out : list server_line) : list Z :=
  flat_map (fun l => match l with ProcessingTurn n => [n] | _ => [] end) out.

(** * Properties *)

(** Scenarios of the specification, evaluated. *)

Example scenario_attack :
  fst (new_turn_action (BotGame_init (Some 1))
         (obs 5 5 10 [lh 5 5 (Some 2); lh 8 5 None]))
  = mkNewAction ATTACK (mkPosition 5 5) (Some 10).
Proof. reflexivity. Qed.

Example scenario_move :
  let r := new_turn_action (BotGame_init (Some 1))
             (obs 0 0 10 [lh 3 0 None; lh 0 4 None]) in
  fst r = mkNewAction MOVE (mkPosition 1 0) None /\
  target (snd r) = Some (3, 0).
Proof. split; reflexivity. Qed.

Example scenario_pass :
  let self := mkBotGame (Some 1) None [] [(2, 2)] (Some (2, 2)) 4 in
  let r := new_turn_action self (obs 2 2 10 [lh 2 2 (Some 1)]) in
  fst r = mkNewAction PASS (mkPosition 2 2) None /\
  target (snd r) = None.
Proof. split; reflexivity. Qed.

(** ** Positions, membership and the dict *)

Lemma pos_eqb_eq (a b : pos) : pos_eqb a b = true <-> a = b.
Proof.
  destruct a as [ax ay], b as [bx b_y]; unfold pos_eqb; simpl.
  rewrite andb_true_iff, !Z.eqb_eq. split.
  - intros [-> ->]; reflexivity.
  - intros E; inversion E; auto.
Qed.

Lemma pos_eqb_refl (a : pos) : pos_eqb a a = true.
Proof. apply pos_eqb_eq; reflexivity. Qed.

Lemma pos_eqb_neq (a b : pos) : pos_eqb a b = false <-> a <> b.
Proof.
  rewrite <- pos_eqb_eq. destruct (pos_eqb a b); split; congruence.
Qed.

Lemma pos_eqb_sym (a b : pos) : pos_eqb a b = pos_eqb b a.
Proof.
  destruct (pos_eqb b a) eqn:E.
  - apply pos_eqb_eq. apply pos_eqb_eq in E. auto.
  - apply pos_eqb_neq. apply pos_eqb_neq in E. auto.
Qed.

Lemma contains_In (d : list pos) (x : pos) : contains d x = true <-> In x d.
Proof.
  unfold contains. rewrite existsb_exists. split.
  - intros (y & Hy & E). apply pos_eqb_eq in E. subst; assumption.
  - intros H. exists x. split; [assumption | apply pos_eqb_refl].
Qed.

Lemma contains_not_In (d : list pos) (x : pos) : contains d x = false <-> ~ In x d.
Proof.
  rewrite <- contains_In. destruct (contains d x); split; congruence.
Qed.

Lemma PlayerRef_eqb_eq (a b : PlayerRef) : PlayerRef_eqb a b = true <-> a = b.
Proof.
  destruct a as [x|], b as [y|]; simpl; try (split; congruence).
  rewrite Z.eqb_eq. split; congruence.
Qed.

Lemma PlayerRef_eqb_neq (a b : PlayerRef) : PlayerRef_eqb a b = false <-> a <> b.
Proof.
  rewrite <- PlayerRef_eqb_eq. destruct (PlayerRef_eqb a b); split; congruence.
Qed.

Section DictFacts.
Context {V : Type}.
Implicit Types (d : @PyDict.t V) (k p : pos) (v : V).

Lemma get_set d k v p :
  PyDict.get p (PyDict.set k v d) =
  if pos_eqb k p then Some v else PyDict.get p d.
Proof.
  induction d as [|[k' v'] r IH]; simpl.
  - reflexivity.
  - destruct (pos_eqb k' k) eqn:Ek; simpl.
    + apply pos_eqb_eq in Ek; subst k'. destruct (pos_eqb k p); reflexivity.
    + rewrite IH. destruct (pos_eqb k' p) eqn:Ep; [|reflexivity].
      apply pos_eqb_eq in Ep; subst k'.
      rewrite (pos_eqb_sym k p), Ek. reflexivity.
Qed.

(** Assigning to a key appends it to the key order only when it is new. *)
Lemma keys_set d k v :
  PyDict.keys (PyDict.set k v d) =
  if contains (PyDict.keys d) k then PyDict.keys d else PyDict.keys d ++ [k].
Proof.
  unfold PyDict.keys, contains.
  induction d as [|[k' v'] r IH]; simpl.
  - reflexivity.
  - rewrite (pos_eqb_sym k k'). destruct (pos_eqb k' k) eqn:Ek; simpl.
    + reflexivity.
    + rewrite IH. destruct (existsb (pos_eqb k) (map fst r)); reflexivity.
Qed.
End DictFacts.

(** ** The lookup table built from an observation *)

Lemma lighthouses_dict_snoc (l : list Lighthouse) (x : Lighthouse) :
  lighthouses_dict (l ++ [x]) = PyDict.set (lighthouse_key x) x (lighthouses_dict l).
Proof. unfold lighthouses_dict. rewrite fold_left_app. reflexivity. Qed.

Lemma get_lighthouses_dict_snoc (l : list Lighthouse) (x : Lighthouse) (p : pos) :
  PyDict.get p (lighthouses_dict (l ++ [x])) =
  if pos_eqb (lighthouse_key x) p then Some x else PyDict.get p (lighthouses_dict l).
Proof. rewrite lighthouses_dict_snoc. apply get_set. Qed.

(** The table maps a position to the last lighthouse listed there. *)
Lemma get_lighthouses_dict_Some (lhs : list Lighthouse) (p : pos) (lh : Lighthouse) :
  PyDict.get p (lighthouses_dict lhs) = Some lh <-> last_at lhs p lh.
Proof.
  unfold last_at.
  induction lhs as [|x l IH] using rev_ind.
  - simpl. split; [discriminate|].
    intros (l1 & l2 & E & _). destruct l1; discriminate.
  - rewrite get_lighthouses_dict_snoc.
    destruct (pos_eqb (lighthouse_key x) p) eqn:Ex.
    + apply pos_eqb_eq in Ex. split.
      * intros H; injection H as <-. exists l, []. auto.
      * intros (l1 & l2 & E & Hk & Hall).
        destruct l2 as [|y l2'] using rev_ind.
        -- apply app_inj_tail in E. destruct E as [_ ->]. reflexivity.
        -- clear IHl2'. rewrite app_comm_cons, app_assoc in E.
           apply app_inj_tail in E. destruct E as [_ ->].
           apply Forall_app in Hall. destruct Hall as [_ Hy].
           inversion Hy; subst. contradiction.
    + apply pos_eqb_neq in Ex. rewrite IH. split.
      * intros (l1 & l2 & -> & Hk & Hall).
        exists l1, (l2 ++ [x]). rewrite <- app_assoc. simpl.
        repeat split; auto. apply Forall_app. auto.
      * intros (l1 & l2 & E & Hk & Hall).
        destruct l2 as [|y l2'] using rev_ind.
        -- apply app_inj_tail in E. destruct E as [_ ->]. contradiction.
        -- clear IHl2'. rewrite app_comm_cons, app_assoc in E.
           apply app_inj_tail in E. destruct E as [-> ->].
           apply Forall_app in Hall. destruct Hall as [Hall _].
           exists l1, l2'. auto.
Qed.

Lemma get_lighthouses_dict_None (lhs : list Lighthouse) (p : pos) :
  PyDict.get p (lighthouses_dict lhs) = None <->
  Forall (fun x => lighthouse_key x <> p) lhs.
Proof.
  induction lhs as [|x l IH] using rev_ind.
  - simpl. split; auto.
  - rewrite get_lighthouses_dict_snoc, Forall_app.
    destruct (pos_eqb (lighthouse_key x) p) eqn:Ex.
    + apply pos_eqb_eq in Ex. split; [discriminate|].
      intros [_ Hx]. inversion Hx; subst. contradiction.
    + apply pos_eqb_neq in Ex. rewrite IH. split; [|tauto].
      intros H; split; auto.
Qed.

(** When no two lighthouses of the observation share a position, the last
    lighthouse at [p] is simply the lighthouse at [p]. *)
Lemma last_at_unique_positions (lhs : list Lighthouse) (p : pos) (lh : Lighthouse) :
  NoDup (map lighthouse_key lhs) ->
  (last_at lhs p lh <-> In lh lhs /\ lighthouse_key lh = p).
Proof.
  intros ND. split.
  - intros (l1 & l2 & -> & Hk & _). split; [|assumption].
    apply in_or_app. right. left. reflexivity.
  - intros [Hin Hk]. apply in_split in Hin. destruct Hin as (l1 & l2 & ->).
    exists l1, l2. repeat split; auto.
    rewrite map_app in ND. simpl in ND. apply NoDup_remove_2 in ND.
    apply Forall_forall. intros y Hy Ey. apply ND.
    apply in_or_app. right. rewrite Hk, <- Ey. apply in_map. assumption.
Qed.

(** ** The three paths through [new_turn_action] *)

Lemma new_turn_action_path (self : BotGame) (tn : NewTurn) :
  turn_path self tn (new_turn_action self tn).
Proof.
  unfold new_turn_action. fold (my_pos tn).
  destruct (PyDict.get (my_pos tn) (lighthouses_dict (NewTurn_Lighthouses tn)))
    as [lh|] eqn:Eget.
  - destruct (PlayerRef_eqb (Lighthouse_Owner lh) (player_num self)) eqn:Eown; simpl.
    + apply path_owned with lh; [assumption | now apply PlayerRef_eqb_eq].
    + apply path_attack with lh; [assumption | now apply PlayerRef_eqb_neq].
  - apply path_elsewhere. assumption.
Qed.

Lemma Position_eta (p : Position) : mkPosition (X p) (Y p) = p.
Proof. destruct p; reflexivity. Qed.

(** What [choose_target] leaves alone. *)
Lemma choose_target_frame (p : pos) (d : PyDict.t) (self : BotGame) :
  let self' := choose_target p d self in
  player_num self' = player_num self /\
  initial_state self' = initial_state self /\
  turn_states self' = turn_states self /\
  visited self' = visited self /\
  countT self' = countT self.
Proof.
  unfold choose_target.
  destruct (match target self with
            | Some tg => contains (visited self) tg
            | None => true
            end);
    [destruct (filter _ _)|]; simpl; repeat split.
Qed.

(** The action built by the movement step is [MOVE] when a target is held
    and [PASS] otherwise. *)
Lemma move_toward_target_action (tn : NewTurn) (self : BotGame) :
  let a := fst (move_toward_target tn self) in
  match target self with
  | Some (tx, ty) =>
      a = mkNewAction MOVE
            (mkPosition (X (NewTurn_Position tn) + Z.sgn (tx - X (NewTurn_Position tn)))
                        (Y (NewTurn_Position tn) + Z.sgn (ty - Y (NewTurn_Position tn))))
            None
  | None => a = mkNewAction PASS (NewTurn_Position tn) None
  end.
Proof.
  unfold move_toward_target; simpl.
  destruct (target self) as [[tx ty]|]; simpl.
  - f_equal. f_equal.
    + destruct (Z.eqb_spec tx (X (NewTurn_Position tn))).
      * subst. rewrite Z.sub_diag. reflexivity.
      * destruct (Z.gtb_spec tx (X (NewTurn_Position tn))).
        -- rewrite Z.sgn_pos by lia. reflexivity.
        -- rewrite Z.sgn_neg by lia. reflexivity.
    + destruct (Z.eqb_spec ty (Y (NewTurn_Position tn))).
      * subst. rewrite Z.sub_diag. reflexivity.
      * destruct (Z.gtb_spec ty (Y (NewTurn_Position tn))).
        -- rewrite Z.sgn_pos by lia. reflexivity.
        -- rewrite Z.sgn_neg by lia. reflexivity.
  - rewrite Position_eta. reflexivity.
Qed.

Lemma move_toward_target_state (tn : NewTurn) (self : BotGame) :
  snd (move_toward_target tn self) =
  record_turn tn (fst (move_toward_target tn self)) self.
Proof. reflexivity. Qed.

Lemma move_toward_target_not_attack (tn : NewTurn) (self : BotGame) :
  NewAction_Action (fst (move_toward_target tn self)) = MOVE /\ target self <> None \/
  NewAction_Action (fst (move_toward_target tn self)) = PASS /\ target self = None.
Proof.
  unfold move_toward_target; simpl.
  destruct (target self) as [[tx ty]|]; simpl.
  - left; split; congruence.
  - right; split; reflexivity.
Qed.

(** Case analysis on the path a turn takes. *)
Ltac turn_paths self tn :=
  let P := fresh "P" in
  pose proof (new_turn_action_path self tn) as P;
  inversion P as [lh_here Hget Hown Hr | lh_here Hget Hown Hr | Hget Hr];
  clear P.

(** On a path through the movement step, the two actions it can build. *)
Ltac move_or_pass :=
  match goal with
  | |- context [move_toward_target ?tn ?s] =>
      let E := fresh "E" in
      destruct (move_toward_target_not_attack tn s) as [[E _]|[E _]];
      rewrite E
  end.

(** ** Properties of one turn *)

(** C1.  [new_turn_action] answers [ATTACK] exactly when the lighthouse at
    the bot's position (the one the position-keyed table holds there: the
    last lighthouse of the observation listed at that position) has an
    owner other than the bot's [player_num]; the attack is then aimed at
    the bot's own position and carries the whole energy of the turn.  In
    particular no attack is answered when no lighthouse stands at the
    bot's position, and when the lighthouses of the observation stand at
    distinct positions the attack is answered exactly when one of them
    stands at the bot's position with another owner. *)
Theorem attack_iff_contested_lighthouse (self : BotGame) (tn : NewTurn) :
  let a := fst (new_turn_action self tn) in
  (NewAction_Action a = ATTACK <->
   exists lh, last_at (NewTurn_Lighthouses tn) (my_pos tn) lh /\
              Lighthouse_Owner lh <> player_num self) /\
  (NewAction_Action a = ATTACK ->
   NewAction_Destination a = NewTurn_Position tn /\
   NewAction_Energy a = Some (NewTurn_Energy tn)) /\
  (Forall (fun lh => lighthouse_key lh <> my_pos tn) (NewTurn_Lighthouses tn) ->
   NewAction_Action a <> ATTACK) /\
  (NoDup (map lighthouse_key (NewTurn_Lighthouses tn)) ->
   (NewAction_Action a = ATTACK <->
    exists lh, In lh (NewTurn_Lighthouses tn) /\
               lighthouse_key lh = my_pos tn /\
               Lighthouse_Owner lh <> player_num self)).
Proof.
  cbv zeta.
  assert (Hiff : NewAction_Action (fst (new_turn_action self tn)) = ATTACK <->
                 exists lh, last_at (NewTurn_Lighthouses tn) (my_pos tn) lh /\
                            Lighthouse_Owner lh <> player_num self).
  { turn_paths self tn.
    - simpl. split; [|reflexivity]. intros _. exists lh_here. split; [|assumption].
      now apply get_lighthouses_dict_Some.
    - move_or_pass; (split; [discriminate|]);
        intros (lh' & Hl & Hne); apply get_lighthouses_dict_Some in Hl;
        rewrite Hget in Hl; injection Hl as <-; contradiction.
    - move_or_pass; (split; [discriminate|]);
        intros (lh' & Hl & Hne); apply get_lighthouses_dict_Some in Hl;
        rewrite Hget in Hl; discriminate. }
  split; [exact Hiff|]. split; [|split].
  - intros Ha. apply Hiff in Ha. destruct Ha as (lh & Hl & Hne).
    apply get_lighthouses_dict_Some in Hl.
    turn_paths self tn.
    + simpl. rewrite Position_eta. split; reflexivity.
    + rewrite Hget in Hl. injection Hl as <-. contradiction.
    + rewrite Hget in Hl. discriminate.
  - intros Hall Ha. apply Hiff in Ha. destruct Ha as (lh & Hl & _).
    apply get_lighthouses_dict_Some in Hl.
    apply get_lighthouses_dict_None in Hall. congruence.
  - intros ND. rewrite Hiff. split.
    + intros (lh & Hl & Hne). exists lh.
      apply (last_at_unique_positions _ _ _ ND) in Hl. tauto.
    + intros (lh & Hin & Hk & Hne). exists lh. split; [|exact Hne].
      apply (last_at_unique_positions _ _ _ ND). tauto.
Qed.

(** With two lighthouses listed at one position the table keeps the last:
    the first one's owner does not count. *)
Example last_listed_lighthouse_decides :
  NewAction_Action (fst (new_turn_action (BotGame_init (Some 1))
    (obs 5 5 10 [lh 5 5 (Some 2); lh 5 5 (Some 1)]))) = PASS /\
  NewAction_Action (fst (new_turn_action (BotGame_init (Some 1))
    (obs 5 5 10 [lh 5 5 (Some 1); lh 5 5 (Some 2)]))) = ATTACK.
Proof. split; reflexivity. Qed.

(** C6.  The action of a turn is never [CONNECT]: it is [ATTACK], [MOVE]
    or [PASS]. *)
Theorem never_connect (self : BotGame) (tn : NewTurn) :
  let k := NewAction_Action (fst (new_turn_action self tn)) in
  k <> CONNECT /\ (k = ATTACK \/ k = MOVE \/ k = PASS).
Proof.
  cbv zeta.
  turn_paths self tn.
  - simpl. split; [discriminate | left; reflexivity].
  - move_or_pass; split; try discriminate; auto.
  - move_or_pass; split; try discriminate; auto.
Qed.

(** One call: the record appended and the counter. *)
Lemma new_turn_action_bookkeeping (self : BotGame) (tn : NewTurn) :
  turn_states (snd (new_turn_action self tn)) =
    turn_states self ++ [mkBotGameTurn tn (fst (new_turn_action self tn))] /\
  countT (snd (new_turn_action self tn)) = countT self + 1.
Proof.
  turn_paths self tn.
  - simpl. split; reflexivity.
  - rewrite move_toward_target_state. simpl.
    match goal with
    | |- context [choose_target ?p ?d ?s] =>
        destruct (choose_target_frame p d s) as (_ & _ & Ets & _ & Ec)
    end.
    rewrite Ets, Ec. simpl. split; reflexivity.
  - rewrite move_toward_target_state. simpl.
    match goal with
    | |- context [choose_target ?p ?d ?s] =>
        destruct (choose_target_frame p d s) as (_ & _ & Ets & _ & Ec)
    end.
    rewrite Ets, Ec. split; reflexivity.
Qed.

Lemma run_bookkeeping (turns : list NewTurn) : forall self : BotGame,
  countT (snd (run self turns)) = countT self + Z.of_nat (length turns) /\
  map turn (turn_states (snd (run self turns))) =
    map turn (turn_states self) ++ turns /\
  map action (turn_states (snd (run self turns))) =
    map action (turn_states self) ++ fst (run self turns).
Proof.
  induction turns as [|tn rest IH]; intros self.
  - simpl. rewrite !app_nil_r. repeat split. lia.
  - simpl run.
    destruct (new_turn_action self tn) as [a self1] eqn:E1.
    destruct (run self1 rest) as [acts self2] eqn:E2.
    specialize (IH self1). rewrite E2 in IH. simpl in IH.
    destruct IH as (Hc & Ht & Ha).
    destruct (new_turn_action_bookkeeping self tn) as [Hts Hct].
    rewrite E1 in Hts, Hct. simpl in Hts, Hct.
    simpl fst; simpl snd.
    rewrite Hc, Ht, Ha, Hts, Hct, !map_app, <- !app_assoc. simpl.
    repeat split. lia.
Qed.

(** C7.  Whatever the branch, a call appends exactly one record
    [(turn, action)] to [turn_states] and adds one to [countT]; the counter
    is 1 in a new [BotGame], so after any sequence of turns it is one more
    than their number, and the history holds those turns and the actions
    answered, in order. *)
Theorem every_turn_recorded_and_counted
    (self : BotGame) (tn : NewTurn) (pid : PlayerRef) (turns : list NewTurn) :
  let r := new_turn_action self tn in
  let final := run (BotGame_init pid) turns in
  turn_states (snd r) = turn_states self ++ [mkBotGameTurn tn (fst r)] /\
  countT (snd r) = countT self + 1 /\
  countT self < countT (snd r) /\
  countT (BotGame_init pid) = 1 /\
  countT (snd final) = 1 + Z.of_nat (length turns) /\
  map turn (turn_states (snd final)) = turns /\
  map action (turn_states (snd final)) = fst final.
Proof.
  cbv zeta.
  destruct (new_turn_action_bookkeeping self tn) as [Hts Hct].
  destruct (run_bookkeeping turns (BotGame_init pid)) as (Hc & Ht & Ha).
  rewrite Hts, Hct, Hc, Ht, Ha. simpl. repeat split; lia.
Qed.

(** C10.  On the attack branch the call returns at once: the stored
    target is kept as it was, and the state differs from the one before
    only by the position appended to [visited], the record appended to
    [turn_states] and [countT] plus one. *)
Theorem attack_returns_early (self : BotGame) (tn : NewTurn) :
  NewAction_Action (fst (new_turn_action self tn)) = ATTACK ->
  new_turn_action self tn =
    (attack_action tn,
     {| player_num := player_num self;
        initial_state := initial_state self;
        turn_states := turn_states self ++ [mkBotGameTurn tn (attack_action tn)];
        visited := Deque.append visited_maxlen (visited self) (my_pos tn);
        target := target self;
        countT := countT self + 1 |}) /\
  target (snd (new_turn_action self tn)) = target self.
Proof.
  turn_paths self tn.
  - intros _. split; reflexivity.
  - move_or_pass; discriminate.
  - move_or_pass; discriminate.
Qed.

Lemma attack_returns_early_witness :
  new_turn_action (mkBotGame (Some 1) None [] [(1, 1)] (Some (8, 5)) 3)
                  (obs 5 5 10 [lh 5 5 (Some 2); lh 8 5 None]) =
    (mkNewAction ATTACK (mkPosition 5 5) (Some 10),
     mkBotGame (Some 1) None
        [mkBotGameTurn (obs 5 5 10 [lh 5 5 (Some 2); lh 8 5 None])
           (mkNewAction ATTACK (mkPosition 5 5) (Some 10))]
        [(1, 1); (5, 5)] (Some (8, 5)) 4) /\
  target (snd (new_turn_action (mkBotGame (Some 1) None [] [(1, 1)] (Some (8, 5)) 3)
                 (obs 5 5 10 [lh 5 5 (Some 2); lh 8 5 None]))) = Some (8, 5).
Proof.
  apply (attack_returns_early (mkBotGame (Some 1) None [] [(1, 1)] (Some (8, 5)) 3)
           (obs 5 5 10 [lh 5 5 (Some 2); lh 8 5 None])).
  reflexivity.
Defined.

(** ** Reselection and movement *)

Lemma choose_target_eq (p : pos) (d : PyDict.t) (self : BotGame) :
  choose_target p d self =
  if stale self
  then set_target (py_min (fun q => manhattan_distance p q) (unvisited_keys d self)) self
  else self.
Proof.
  unfold choose_target, stale, unvisited_keys.
  destruct (match target self with
            | Some tg => contains (visited self) tg
            | None => true
            end); [|reflexivity].
  destruct (filter _ _); reflexivity.
Qed.

Lemma stale_iff (self : BotGame) :
  stale self = true <->
  target self = None \/ exists tg, target self = Some tg /\ In tg (visited self).
Proof.
  unfold stale. destruct (target self) as [tg|].
  - rewrite contains_In. split.
    + intros H. right. exists tg. auto.
    + intros [H|(tg' & E & H)]; [discriminate|]. injection E as ->. assumption.
  - split; auto.
Qed.

(** A turn that does not attack runs reselection and movement on the state
    [self1]: [self] itself, or [self] with the bot's position appended to
    [visited] when the bot stands on its own lighthouse. *)
Lemma non_attack_shape (self : BotGame) (tn : NewTurn) :
  NewAction_Action (fst (new_turn_action self tn)) <> ATTACK ->
  exists self1,
    new_turn_action self tn =
      move_toward_target tn
        (choose_target (my_pos tn) (lighthouses_dict (NewTurn_Lighthouses tn)) self1) /\
    target self1 = target self /\
    visited (snd (new_turn_action self tn)) = visited self1 /\
    (self1 = self /\
     PyDict.get (my_pos tn) (lighthouses_dict (NewTurn_Lighthouses tn)) = None \/
     self1 = visited_append (my_pos tn) self /\
     exists lh,
       PyDict.get (my_pos tn) (lighthouses_dict (NewTurn_Lighthouses tn)) = Some lh /\
       Lighthouse_Owner lh = player_num self).
Proof.
  turn_paths self tn; intros Hna.
  - simpl in Hna. congruence.
  - exists (visited_append (my_pos tn) self). repeat split.
    + rewrite move_toward_target_state. simpl.
      apply (choose_target_frame (my_pos tn)
               (lighthouses_dict (NewTurn_Lighthouses tn))
               (visited_append (my_pos tn) self)).
    + right. split; [reflexivity|]. exists lh_here. auto.
  - exists self. repeat split.
    + rewrite move_toward_target_state. simpl.
      apply (choose_target_frame (my_pos tn)
               (lighthouses_dict (NewTurn_Lighthouses tn)) self).
    + left. auto.
Qed.

(** The movement step, as seen from the result of the turn. *)
Lemma move_shape (self : BotGame) (tn : NewTurn) :
  NewAction_Action (fst (new_turn_action self tn)) = MOVE ->
  exists tx ty,
    target (snd (new_turn_action self tn)) = Some (tx, ty) /\
    NewAction_Destination (fst (new_turn_action self tn)) =
      mkPosition (X (NewTurn_Position tn) + Z.sgn (tx - X (NewTurn_Position tn)))
                 (Y (NewTurn_Position tn) + Z.sgn (ty - Y (NewTurn_Position tn))).
Proof.
  intros Hmove.
  destruct (non_attack_shape self tn) as (self1 & Hr & _).
  { rewrite Hmove. discriminate. }
  rewrite Hr in *. clear Hr.
  set (s2 := choose_target _ _ self1) in *.
  pose proof (move_toward_target_action tn s2) as Ha. cbv zeta in Ha.
  rewrite move_toward_target_state. simpl target.
  destruct (target s2) as [[tx ty]|].
  - exists tx, ty. rewrite Ha. split; reflexivity.
  - rewrite Ha in Hmove. discriminate.
Qed.

(** C4.  A [MOVE] goes to [(cx + dx, cy + dy)] where, for the target held
    when the move is computed, [dx] is the sign of [tx - cx] and [dy] the
    sign of [ty - cy]: 0 on equal coordinates, +1 when the target's is
    greater, -1 when it is smaller.  The destination is thus at most one
    cell away on each axis. *)
Theorem move_is_unit_step_toward_target (self : BotGame) (tn : NewTurn) :
  let a := fst (new_turn_action self tn) in
  let cx := X (NewTurn_Position tn) in
  let cy := Y (NewTurn_Position tn) in
  NewAction_Action a = MOVE ->
  exists tx ty,
    target (snd (new_turn_action self tn)) = Some (tx, ty) /\
    X (NewAction_Destination a) = cx + Z.sgn (tx - cx) /\
    Y (NewAction_Destination a) = cy + Z.sgn (ty - cy) /\
    Z.abs (X (NewAction_Destination a) - cx) <= 1 /\
    Z.abs (Y (NewAction_Destination a) - cy) <= 1.
Proof.
  cbv zeta. intros Hmove.
  destruct (move_shape self tn Hmove) as (tx & ty & Htg & Hd).
  exists tx, ty. rewrite Hd. simpl. repeat split; try assumption; lia.
Qed.

Lemma move_is_unit_step_toward_target_witness :
  exists tx ty,
    target (snd (new_turn_action (BotGame_init (Some 1))
                   (obs 0 0 10 [lh 3 0 None; lh 0 4 None]))) = Some (tx, ty) /\
    X (NewAction_Destination (fst (new_turn_action (BotGame_init (Some 1))
         (obs 0 0 10 [lh 3 0 None; lh 0 4 None])))) = 0 + Z.sgn (tx - 0) /\
    Y (NewAction_Destination (fst (new_turn_action (BotGame_init (Some 1))
         (obs 0 0 10 [lh 3 0 None; lh 0 4 None])))) = 0 + Z.sgn (ty - 0) /\
    Z.abs (X (NewAction_Destination (fst (new_turn_action (BotGame_init (Some 1))
         (obs 0 0 10 [lh 3 0 None; lh 0 4 None])))) - 0) <= 1 /\
    Z.abs (Y (NewAction_Destination (fst (new_turn_action (BotGame_init (Some 1))
         (obs 0 0 10 [lh 3 0 None; lh 0 4 None])))) - 0) <= 1.
Proof.
  apply (move_is_unit_step_toward_target (BotGame_init (Some 1))
           (obs 0 0 10 [lh 3 0 None; lh 0 4 None])).
  reflexivity.
Defined.

(** The destination of a move lies between the bot and its target on each
    axis, so it is representable whenever both of them are. *)
Lemma move_destination_between (self : BotGame) (tn : NewTurn) (tx ty : Z) :
  NewAction_Action (fst (new_turn_action self tn)) = MOVE ->
  target (snd (new_turn_action self tn)) = Some (tx, ty) ->
  let d := NewAction_Destination (fst (new_turn_action self tn)) in
  Z.min (X (NewTurn_Position tn)) tx <= X d <= Z.max (X (NewTurn_Position tn)) tx /\
  Z.min (Y (NewTurn_Position tn)) ty <= Y d <= Z.max (Y (NewTurn_Position tn)) ty.
Proof.
  intros Hmove Htg.
  destruct (move_shape self tn Hmove) as (tx' & ty' & E & Hd).
  rewrite Htg in E. injection E as <- <-. cbv zeta. rewrite Hd. simpl. lia.
Qed.

(** A stored target that is not in [visited] is kept by a turn that does
    not attack. *)
Lemma held_target_survives (self : BotGame) (tn : NewTurn) (tg : pos) :
  NewAction_Action (fst (new_turn_action self tn)) <> ATTACK ->
  target self = Some tg ->
  ~ In tg (visited (snd (new_turn_action self tn))) ->
  target (snd (new_turn_action self tn)) = Some tg.
Proof.
  intros Hna Htg Hnv.
  destruct (non_attack_shape self tn Hna) as (self1 & Hr & Ht1 & Hv & _).
  rewrite Hv in Hnv. rewrite Hr, move_toward_target_state. simpl target.
  rewrite choose_target_eq.
  assert (Hs : stale self1 = false).
  { unfold stale. rewrite Ht1, Htg. apply contains_not_In. exact Hnv. }
  rewrite Hs, Ht1. exact Htg.
Qed.

(** C9, with the attack branch set aside.  On a turn that does not attack
    (no contested lighthouse under the bot), when the target held at the
    movement step is the bot's own position, the step is (0,0) and the
    answer is a [MOVE] to the current position, not a [PASS]. *)
Theorem zero_distance_target_moves_in_place (self : BotGame) (tn : NewTurn) :
  let a := fst (new_turn_action self tn) in
  NewAction_Action a <> ATTACK ->
  target (snd (new_turn_action self tn)) = Some (my_pos tn) ->
  NewAction_Action a = MOVE /\
  NewAction_Destination a = NewTurn_Position tn /\
  NewAction_Energy a = None.
Proof.
  cbv zeta. intros Hna Htg.
  destruct (non_attack_shape self tn Hna) as (self1 & Hr & _).
  rewrite Hr in *. clear Hr Hna.
  set (s2 := choose_target _ _ self1) in *.
  pose proof (move_toward_target_action tn s2) as Ha. cbv zeta in Ha.
  rewrite move_toward_target_state in Htg. simpl target in Htg.
  unfold my_pos in Htg. rewrite Htg in Ha. cbv beta iota in Ha.
  rewrite !Z.sub_diag in Ha. change (Z.sgn 0) with 0 in Ha.
  rewrite !Z.add_0_r, Position_eta in Ha.
  rewrite Ha. repeat split.
Qed.

Lemma zero_distance_target_moves_in_place_witness :
  NewAction_Action (fst (new_turn_action (mkBotGame (Some 1) None [] [] (Some (1, 1)) 2)
                           (obs 1 1 10 [lh 4 1 None]))) = MOVE /\
  NewAction_Destination (fst (new_turn_action (mkBotGame (Some 1) None [] [] (Some (1, 1)) 2)
                           (obs 1 1 10 [lh 4 1 None]))) = mkPosition 1 1 /\
  NewAction_Energy (fst (new_turn_action (mkBotGame (Some 1) None [] [] (Some (1, 1)) 2)
                           (obs 1 1 10 [lh 4 1 None]))) = None.
Proof.
  apply (zero_distance_target_moves_in_place
           (mkBotGame (Some 1) None [] [] (Some (1, 1)) 2) (obs 1 1 10 [lh 4 1 None])).
  - discriminate.
  - reflexivity.
Defined.

(** C9 does not hold on the attack branch.  After one turn spent
    walking toward the lighthouse at (5,5) the bot holds it as target; on
    the next turn the bot stands on it, the target is its own position and
    is not in [visited], so nothing reselects it; the lighthouse belongs
    to another player and the answer is [ATTACK], not [MOVE]. *)
Lemma target_underfoot_contested_attacks :
  let self := snd (run (BotGame_init (Some 1)) [obs 4 4 10 [lh 5 5 (Some 2)]]) in
  let tn := obs 5 5 10 [lh 5 5 (Some 2)] in
  target self = Some (my_pos tn) /\
  ~ In (my_pos tn) (visited self) /\
  target (snd (new_turn_action self tn)) = Some (my_pos tn) /\
  fst (new_turn_action self tn) = mkNewAction ATTACK (mkPosition 5 5) (Some 10) /\
  NewAction_Action (fst (new_turn_action self tn)) <> MOVE.
Proof.
  cbv zeta. repeat split; try reflexivity.
  - simpl. tauto.
  - simpl. discriminate.
Qed.

(** ** The key order of the lookup table *)

Lemma keys_lighthouses_dict_snoc (l : list Lighthouse) (x : Lighthouse) :
  PyDict.keys (lighthouses_dict (l ++ [x])) =
  if contains (PyDict.keys (lighthouses_dict l)) (lighthouse_key x)
  then PyDict.keys (lighthouses_dict l)
  else PyDict.keys (lighthouses_dict l) ++ [lighthouse_key x].
Proof. rewrite lighthouses_dict_snoc. apply keys_set. Qed.

(** The keys are the positions of the observation's lighthouses. *)
Lemma In_keys_lighthouses_dict (lhs : list Lighthouse) (p : pos) :
  In p (PyDict.keys (lighthouses_dict lhs)) <-> In p (map lighthouse_key lhs).
Proof.
  revert p. induction lhs as [|x l IH] using rev_ind; intros p.
  - simpl. tauto.
  - rewrite keys_lighthouses_dict_snoc, map_app, in_app_iff. simpl.
    destruct (contains _ _) eqn:Ec.
    + apply contains_In, IH in Ec. rewrite IH. split; [tauto|].
      intros [H|[<-|[]]]; assumption.
    + rewrite in_app_iff, IH. simpl. tauto.
Qed.

Lemma unvisited_keys_In (lhs : list Lighthouse) (self : BotGame) (p : pos) :
  In p (unvisited_keys (lighthouses_dict lhs) self) <->
  In p (map lighthouse_key lhs) /\ ~ In p (visited self).
Proof.
  unfold unvisited_keys. rewrite filter_In, In_keys_lighthouses_dict.
  rewrite negb_true_iff, contains_not_In. tauto.
Qed.

(** C5, for a target that is spent.  On a turn that does not attack, when
    the stored target is none or is in [visited], and every visible
    lighthouse position is in [visited] -- [visited] being the history as
    this turn leaves it, with the bot's position appended if the bot stands
    on its own lighthouse -- the target becomes none and the answer is a
    [PASS] at the bot's position. *)
Theorem pass_when_nothing_left_to_visit (self : BotGame) (tn : NewTurn) :
  let a := fst (new_turn_action self tn) in
  let self' := snd (new_turn_action self tn) in
  NewAction_Action a <> ATTACK ->
  (target self = None \/
   exists tg, target self = Some tg /\ In tg (visited self')) ->
  (forall p, In p (map lighthouse_key (NewTurn_Lighthouses tn)) ->
             In p (visited self')) ->
  NewAction_Action a = PASS /\
  NewAction_Destination a = NewTurn_Position tn /\
  target self' = None.
Proof.
  cbv zeta. intros Hna Hstale Hall.
  destruct (non_attack_shape self tn Hna) as (self1 & Hr & Htg & Hv & _).
  rewrite Hv, <- Htg in Hstale. apply stale_iff in Hstale.
  rewrite Hv in Hall. rewrite Hr. clear Hr Hv Hna Htg.
  rewrite choose_target_eq, Hstale.
  destruct (unvisited_keys (lighthouses_dict (NewTurn_Lighthouses tn)) self1)
    as [|q rest] eqn:Eu.
  - simpl. rewrite Position_eta. repeat split.
  - exfalso.
    assert (Hq : In q (unvisited_keys (lighthouses_dict (NewTurn_Lighthouses tn)) self1))
      by (rewrite Eu; left; reflexivity).
    apply unvisited_keys_In in Hq. destruct Hq as [Hin Hnv]. auto.
Qed.

Lemma pass_when_nothing_left_to_visit_witness :
  NewAction_Action (fst (new_turn_action (mkBotGame (Some 1) None [] [(2, 2)] (Some (2, 2)) 4)
                           (obs 2 2 10 [lh 2 2 (Some 1)]))) = PASS /\
  NewAction_Destination (fst (new_turn_action (mkBotGame (Some 1) None [] [(2, 2)] (Some (2, 2)) 4)
                           (obs 2 2 10 [lh 2 2 (Some 1)]))) = mkPosition 2 2 /\
  target (snd (new_turn_action (mkBotGame (Some 1) None [] [(2, 2)] (Some (2, 2)) 4)
                 (obs 2 2 10 [lh 2 2 (Some 1)]))) = None.
Proof.
  apply (pass_when_nothing_left_to_visit
           (mkBotGame (Some 1) None [] [(2, 2)] (Some (2, 2)) 4)
           (obs 2 2 10 [lh 2 2 (Some 1)])).
  - discriminate.
  - right. exists (2, 2). split; [reflexivity | simpl; auto].
  - simpl. intros p [<-|[]]. auto.
Defined.

(** C5 does not hold while a target chosen earlier is still held.
    The first turn picks the lighthouse at (9,9); on the second turn no
    lighthouse is visible at all, so none lies outside [visited] and none
    is contested under the bot, yet the held target is not in [visited]:
    it is kept and the answer is a [MOVE] toward it. *)
Lemma held_target_moves_without_candidates :
  let self := snd (run (BotGame_init (Some 1)) [obs 0 0 10 [lh 9 9 None]]) in
  let tn := obs 1 1 10 [] in
  (forall p, In p (map lighthouse_key (NewTurn_Lighthouses tn)) ->
             In p (visited self) /\ In p (visited (snd (new_turn_action self tn)))) /\
  PyDict.get (my_pos tn) (lighthouses_dict (NewTurn_Lighthouses tn)) = None /\
  fst (new_turn_action self tn) = mkNewAction MOVE (mkPosition 2 2) None /\
  NewAction_Action (fst (new_turn_action self tn)) <> PASS.
Proof.
  cbv zeta. split; [|split; [|split]].
  - intros p Hp. destruct Hp.
  - reflexivity.
  - reflexivity.
  - simpl. discriminate.
Qed.

(** If [visited] were read as the history before the turn, a [PASS] would
    not follow even with no stored target: recording the bot's position
    can push the oldest entry out and make its lighthouse a candidate. *)
Lemma eviction_reopens_candidate :
  let self := mkBotGame (Some 1) None [] [(0, 0); (3, 3); (5, 5)] None 7 in
  let tn := obs 5 5 10 [lh 0 0 (Some 1); lh 5 5 (Some 1)] in
  (forall p, In p (map lighthouse_key (NewTurn_Lighthouses tn)) -> In p (visited self)) /\
  visited (snd (new_turn_action self tn)) = [(3, 3); (5, 5); (5, 5)] /\
  target (snd (new_turn_action self tn)) = Some (0, 0) /\
  fst (new_turn_action self tn) = mkNewAction MOVE (mkPosition 4 4) None.
Proof.
  cbv zeta. repeat split; try reflexivity.
  simpl. intros p [<-|[<-|[]]]; auto.
Qed.

(** ** The bounded history *)

Lemma deque_append_cases {A : Type} (m : nat) (d : list A) (x : A) :
  (length d <= m)%nat ->
  (length d < m)%nat /\ Deque.append m d x = d ++ [x] \/
  length d = m /\ Deque.append m d x = tl (d ++ [x]).
Proof.
  intros Hle. unfold Deque.append. rewrite length_app. simpl length.
  destruct (Nat.ltb_spec m (length d + 1)).
  - right. split; [lia | reflexivity].
  - left. split; [lia | reflexivity].
Qed.

Lemma deque_append_length {A : Type} (m : nat) (d : list A) (x : A) :
  (length d <= m)%nat -> (length (Deque.append m d x) <= m)%nat.
Proof.
  intros Hle.
  destruct (deque_append_cases m d x Hle) as [[Hlt ->]|[Heq ->]].
  - rewrite length_app. simpl. lia.
  - destruct d as [|y d']; simpl in *.
    + lia.
    + rewrite length_app. simpl. lia.
Qed.

(** A turn leaves [visited] as it was or appends the bot's position. *)
Lemma visited_step (self : BotGame) (tn : NewTurn) :
  visited (snd (new_turn_action self tn)) = visited self \/
  visited (snd (new_turn_action self tn)) =
    Deque.append visited_maxlen (visited self) (my_pos tn).
Proof.
  turn_paths self tn.
  - right. reflexivity.
  - right. rewrite move_toward_target_state. simpl.
    apply (choose_target_frame (my_pos tn)
             (lighthouses_dict (NewTurn_Lighthouses tn))
             (visited_append (my_pos tn) self)).
  - left. rewrite move_toward_target_state. simpl.
    apply (choose_target_frame (my_pos tn)
             (lighthouses_dict (NewTurn_Lighthouses tn)) self).
Qed.

Lemma visited_bound_step (self : BotGame) (tn : NewTurn) :
  (length (visited self) <= visited_maxlen)%nat ->
  (length (visited (snd (new_turn_action self tn))) <= visited_maxlen)%nat.
Proof.
  intros Hle. destruct (visited_step self tn) as [-> | ->].
  - assumption.
  - apply deque_append_length. assumption.
Qed.

Lemma visited_bound_run (turns : list NewTurn) : forall self : BotGame,
  (length (visited self) <= visited_maxlen)%nat ->
  (length (visited (snd (run self turns))) <= visited_maxlen)%nat.
Proof.
  induction turns as [|tn rest IH]; intros self Hle.
  - assumption.
  - simpl run.
    pose proof (visited_bound_step self tn Hle) as H1.
    destruct (new_turn_action self tn) as [a self1].
    specialize (IH self1 H1).
    destruct (run self1 rest) as [acts self2]. exact IH.
Qed.

Lemma lighthouse_underfoot_get (tn : NewTurn) :
  lighthouse_underfoot tn = false <->
  PyDict.get (my_pos tn) (lighthouses_dict (NewTurn_Lighthouses tn)) = None.
Proof.
  rewrite get_lighthouses_dict_None. unfold lighthouse_underfoot.
  rewrite Forall_forall. split.
  - intros He x Hx Ek.
    assert (Ht : existsb (fun lh => pos_eqb (lighthouse_key lh) (my_pos tn))
                   (NewTurn_Lighthouses tn) = true).
    { apply existsb_exists. exists x. split; [exact Hx | now apply pos_eqb_eq]. }
    congruence.
  - intros Hall.
    destruct (existsb _ _) eqn:He; [|reflexivity].
    apply existsb_exists in He. destruct He as (x & Hx & Ek).
    apply pos_eqb_eq in Ek. exfalso. exact (Hall x Hx Ek).
Qed.

(** The history after a turn, by whether a lighthouse is under the bot. *)
Lemma visited_after_turn (self : BotGame) (tn : NewTurn) :
  visited (snd (new_turn_action self tn)) =
  if lighthouse_underfoot tn
  then Deque.append visited_maxlen (visited self) (my_pos tn)
  else visited self.
Proof.
  destruct (lighthouse_underfoot tn) eqn:Eu.
  - turn_paths self tn.
    + reflexivity.
    + rewrite move_toward_target_state. simpl.
      apply (choose_target_frame (my_pos tn)
               (lighthouses_dict (NewTurn_Lighthouses tn))
               (visited_append (my_pos tn) self)).
    + apply lighthouse_underfoot_get in Hget. congruence.
  - apply lighthouse_underfoot_get in Eu.
    turn_paths self tn; try congruence.
    rewrite move_toward_target_state. simpl.
    apply (choose_target_frame (my_pos tn)
             (lighthouses_dict (NewTurn_Lighthouses tn)) self).
Qed.

Lemma tl_skipn {A : Type} (k : nat) : forall l : list A,
  tl (skipn k l) = skipn (S k) l.
Proof.
  induction k as [|k IH]; intros l.
  - destruct l; reflexivity.
  - destruct l as [|y r]; [reflexivity|]. simpl skipn at 1. rewrite IH. reflexivity.
Qed.

(** Appending to the last three items of a list gives the last three items
    of the longer list. *)
Lemma append_last_n {A : Type} (l : list A) (x : A) :
  Deque.append visited_maxlen (last_n 3 l) x = last_n 3 (l ++ [x]).
Proof.
  unfold Deque.append, last_n, visited_maxlen.
  rewrite !length_app, length_skipn. simpl length.
  destruct (Nat.ltb_spec 3 (length l - (length l - 3) + 1)) as [Hgt|Hle].
  - assert (Hl : (3 <= length l)%nat) by lia.
    replace (length l + 1 - 3)%nat with (S (length l - 3)) by lia.
    rewrite <- tl_skipn, skipn_app.
    replace (length l - 3 - length l)%nat with 0%nat by lia. reflexivity.
  - replace (length l - 3)%nat with 0%nat by lia.
    replace (length l + 1 - 3)%nat with 0%nat by lia. reflexivity.
Qed.

Lemma fold_append_last_n {A : Type} (xs : list A) : forall l : list A,
  fold_left (Deque.append visited_maxlen) xs (last_n 3 l) = last_n 3 (l ++ xs).
Proof.
  induction xs as [|x xs IH]; intros l; simpl.
  - rewrite app_nil_r. reflexivity.
  - rewrite append_last_n, IH, <- app_assoc. reflexivity.
Qed.

Lemma visited_run (turns : list NewTurn) : forall self : BotGame,
  visited (snd (run self turns)) =
  fold_left (Deque.append visited_maxlen) (lighthouse_stops turns) (visited self).
Proof.
  induction turns as [|tn rest IH]; intros self.
  - reflexivity.
  - simpl run.
    pose proof (visited_after_turn self tn) as H1.
    destruct (new_turn_action self tn) as [a self1].
    specialize (IH self1).
    destruct (run self1 rest) as [acts self2].
    simpl in IH, H1 |- *. rewrite IH, H1.
    unfold lighthouse_stops. simpl filter.
    destruct (lighthouse_underfoot tn); reflexivity.
Qed.

Lemma lighthouse_underfoot_iff (tn : NewTurn) :
  lighthouse_underfoot tn = true <->
  exists x, In x (NewTurn_Lighthouses tn) /\ lighthouse_key x = my_pos tn.
Proof.
  unfold lighthouse_underfoot. rewrite existsb_exists. split.
  - intros (x & Hx & Ek). exists x. split; [exact Hx | now apply pos_eqb_eq].
  - intros (x & Hx & Ek). exists x. split; [exact Hx | now apply pos_eqb_eq].
Qed.

(** C3.  Over any sequence of calls on a new [BotGame], [visited] holds at
    most 3 positions: exactly the last three at which a turn found the bot
    on a lighthouse.  A further call leaves it unchanged when no lighthouse
    stands under the bot.  When one does, the call appends the bot's
    position: on the right while fewer than 3 are held, and -- when 3 are
    held, so that this is a 4th entry -- after dropping the oldest
    (leftmost) entry; the dropped position is then still present only if
    it is one of the two entries that were appended after it, or the
    position just appended. *)
Theorem visited_bounded_fifo (pid : PlayerRef) (turns : list NewTurn) (tn : NewTurn) :
  let self := snd (run (BotGame_init pid) turns) in
  let self' := snd (new_turn_action self tn) in
  (length (visited self) <= 3)%nat /\
  (length (visited self') <= 3)%nat /\
  visited self = last_n 3 (lighthouse_stops turns) /\
  (lighthouse_underfoot tn = true <->
   exists x, In x (NewTurn_Lighthouses tn) /\ lighthouse_key x = my_pos tn) /\
  (lighthouse_underfoot tn = false -> visited self' = visited self) /\
  (lighthouse_underfoot tn = true -> (length (visited self) < 3)%nat ->
   visited self' = visited self ++ [my_pos tn]) /\
  (lighthouse_underfoot tn = true ->
   forall oldest second third,
     visited self = [oldest; second; third] ->
     visited self' = [second; third; my_pos tn] /\
     (In oldest (visited self') <->
      oldest = second \/ oldest = third \/ oldest = my_pos tn)) /\
  (visited self' = visited self \/
   (length (visited self) < 3)%nat /\ visited self' = visited self ++ [my_pos tn] \/
   exists oldest rest,
     visited self = oldest :: rest /\ length rest = 2%nat /\
     visited self' = rest ++ [my_pos tn] /\
     (In oldest (visited self') <-> In oldest rest \/ oldest = my_pos tn)).
Proof.
  cbv zeta.
  assert (Hle : (length (visited (snd (run (BotGame_init pid) turns))) <= visited_maxlen)%nat).
  { apply visited_bound_run. simpl. unfold visited_maxlen. lia. }
  assert (Hlast : visited (snd (run (BotGame_init pid) turns)) =
                  last_n 3 (lighthouse_stops turns)).
  { rewrite visited_run. exact (fold_append_last_n (lighthouse_stops turns) []). }
  set (self := snd (run (BotGame_init pid) turns)) in *.
  split; [exact Hle|]. split; [exact (visited_bound_step self tn Hle)|].
  split; [exact Hlast|]. split; [apply lighthouse_underfoot_iff|].
  rewrite visited_after_turn.
  destruct (lighthouse_underfoot tn).
  - destruct (deque_append_cases visited_maxlen (visited self) (my_pos tn) Hle)
      as [[Hlt ->]|[Heq ->]].
    + split; [discriminate|]. split; [reflexivity|]. split.
      * intros _ oldest second third E. rewrite E in Hlt.
        unfold visited_maxlen in Hlt. simpl in Hlt. lia.
      * right. left. split; [exact Hlt | reflexivity].
    + split; [discriminate|]. split; [|split].
      * intros _ Hlt. unfold visited_maxlen in Heq. lia.
      * intros _ oldest second third E. rewrite E. simpl. split; [reflexivity|].
        split.
        -- intros [H|[H|[H|[]]]]; auto.
        -- intros [H|[H|H]]; auto.
      * right. right. destruct (visited self) as [|oldest rest]; [discriminate Heq|].
        exists oldest, rest. simpl. injection Heq as Heq.
        repeat split; try assumption.
        -- intros H. apply in_app_or in H. destruct H as [H|[H|[]]]; auto.
        -- intros [H|H]; apply in_or_app; [left; assumption|right; left; auto].
  - split; [reflexivity|]. split; [discriminate|]. split; [discriminate|].
    left. reflexivity.
Qed.

(** A run that fills the history and then overflows it. *)
Example visited_overflow :
  let turns := [obs 1 1 5 [lh 1 1 (Some 2)]; obs 2 2 5 [lh 2 2 (Some 2)];
                obs 3 3 5 [lh 3 3 (Some 2)]] in
  visited (snd (run (BotGame_init (Some 1)) turns)) = [(1, 1); (2, 2); (3, 3)] /\
  visited (snd (run (BotGame_init (Some 1)) (turns ++ [obs 4 4 5 [lh 4 4 (Some 2)]]))) =
    [(2, 2); (3, 3); (4, 4)].
Proof. split; reflexivity. Qed.

(** ** The nearest unvisited lighthouse *)

(** [min_from] returns the first item of least key: every item before it
    has a strictly greater key, every item after it a key at least as
    great. *)
Lemma min_from_split {A : Type} (key : A -> Z) (l : list A) : forall best : A,
  exists a b,
    best :: l = a ++ min_from key best l :: b /\
    (forall q, In q a -> key (min_from key best l) < key q) /\
    (forall q, In q b -> key (min_from key best l) <= key q).
Proof.
  induction l as [|x r IH]; intros best; simpl.
  - exists [], []. simpl. repeat split; intros q [].
  - destruct (Z.ltb_spec (key x) (key best)) as [Hlt|Hge].
    + destruct (IH x) as (a & b & E & Ha & Hb).
      exists (best :: a), b. split; [|split; [|exact Hb]].
      { simpl. f_equal. exact E. }
      intros q [<-|Hq]; [|auto].
      assert (Hx : In x (a ++ min_from key x r :: b))
        by (rewrite <- E; left; reflexivity).
      apply in_app_or in Hx. destruct Hx as [Hx|[Hx|Hx]].
      * specialize (Ha x Hx). lia.
      * rewrite Hx. lia.
      * specialize (Hb x Hx). lia.
    + destruct (IH best) as (a & b & E & Ha & Hb).
      destruct a as [|a0 a'].
      * simpl in E. injection E as Em Er.
        exists [], (x :: r). simpl. repeat split.
        -- rewrite <- Em. reflexivity.
        -- intros q [].
        -- intros q [<-|Hq]; [rewrite <- Em; lia|].
           apply Hb. rewrite <- Er. exact Hq.
      * simpl in E. injection E as E0 Er. subst a0.
        exists (best :: x :: a'), b. split; [|split; [|exact Hb]].
        -- simpl. do 2 f_equal. exact Er.
        -- intros q [<-|[<-|Hq]].
           ++ apply Ha. left. reflexivity.
           ++ assert (key (min_from key best r) < key best)
                by (apply Ha; left; reflexivity).
              lia.
           ++ apply Ha. right. exact Hq.
Qed.

(** A split of a filtered list comes from a split of the list. *)
Lemma filter_split {A : Type} (f : A -> bool) (l : list A) : forall (a b : list A) (p : A),
  filter f l = a ++ p :: b ->
  exists a' b',
    l = a' ++ p :: b' /\ filter f a' = a /\ filter f b' = b /\ f p = true.
Proof.
  induction l as [|y r IH]; intros a b p E; simpl in E.
  - destruct a; discriminate.
  - destruct (f y) eqn:Ey.
    + destruct a as [|z a0]; simpl in E; injection E as E0 Er.
      * subst y. exists [], r. simpl. auto.
      * subst z. destruct (IH _ _ _ Er) as (a' & b' & -> & Ha & Hb & Hp).
        exists (y :: a'), b'. simpl. rewrite Ey, Ha. auto.
    + destruct (IH _ _ _ E) as (a' & b' & -> & Ha & Hb & Hp).
      exists (y :: a'), b'. simpl. rewrite Ey. auto.
Qed.

(** A split of the table's key order comes from a split of the
    observation's list of positions: what precedes the key there already
    precedes it among the keys. *)
Lemma keys_split (lhs : list Lighthouse) : forall (a b : list pos) (p : pos),
  PyDict.keys (lighthouses_dict lhs) = a ++ p :: b ->
  exists l1 l2,
    map lighthouse_key lhs = l1 ++ p :: l2 /\
    (forall q, In q l1 -> In q a) /\
    (forall q, In q l2 -> In q (a ++ p :: b)).
Proof.
  induction lhs as [|x l IH] using rev_ind; intros a b p E.
  - destruct a; discriminate.
  - rewrite keys_lighthouses_dict_snoc in E. rewrite map_app. simpl map.
    destruct (contains _ _) eqn:Ec.
    + destruct (IH _ _ _ E) as (l1 & l2 & -> & H1 & H2).
      exists l1, (l2 ++ [lighthouse_key x]). rewrite <- app_assoc. simpl.
      repeat split; [exact H1|].
      intros q Hq. apply in_app_or in Hq. destruct Hq as [Hq|[<-|[]]]; [auto|].
      rewrite <- E. apply contains_In. exact Ec.
    + destruct b as [|y b0] using rev_ind.
      * apply app_inj_tail in E. destruct E as [Ea Ep]. subst p.
        exists (map lighthouse_key l), []. repeat split.
        -- intros q Hq. rewrite <- Ea. apply In_keys_lighthouses_dict. exact Hq.
        -- intros q [].
      * clear IHb0. rewrite app_comm_cons, app_assoc in E.
        apply app_inj_tail in E. destruct E as [E Ey]. subst y.
        destruct (IH _ _ _ E) as (l1 & l2 & -> & H1 & H2).
        exists l1, (l2 ++ [lighthouse_key x]). rewrite <- app_assoc. simpl.
        repeat split; [exact H1|].
        intros q Hq. apply in_app_or in Hq. destruct Hq as [Hq|[<-|[]]].
        -- specialize (H2 q Hq). rewrite app_comm_cons, app_assoc.
           apply in_or_app. left. exact H2.
        -- rewrite app_comm_cons, app_assoc. apply in_or_app. right. left. reflexivity.
Qed.

(** C2, with the attack branch set aside.  On a turn that does not attack,
    when the stored target is none or is in [visited], and some visible
    lighthouse position is outside [visited] -- [visited] being the history
    as this turn leaves it, with the bot's position appended if the bot
    stands on its own lighthouse -- the new target is the unvisited
    lighthouse position nearest to the bot in Manhattan distance, the first
    such one in the order of the observation's lighthouses: every unvisited
    position listed before it is strictly farther, every one listed after
    it is at least as far. *)
Theorem reselection_picks_first_nearest_unvisited (self : BotGame) (tn : NewTurn) :
  let a := fst (new_turn_action self tn) in
  let self' := snd (new_turn_action self tn) in
  let positions := map lighthouse_key (NewTurn_Lighthouses tn) in
  NewAction_Action a <> ATTACK ->
  (target self = None \/
   exists tg, target self = Some tg /\ In tg (visited self')) ->
  (exists p, In p positions /\ ~ In p (visited self')) ->
  exists p l1 l2,
    target self' = Some p /\
    positions = l1 ++ p :: l2 /\
    ~ In p (visited self') /\
    (forall q, In q l1 -> ~ In q (visited self') ->
       manhattan_distance (my_pos tn) p < manhattan_distance (my_pos tn) q) /\
    (forall q, In q l2 -> ~ In q (visited self') ->
       manhattan_distance (my_pos tn) p <= manhattan_distance (my_pos tn) q).
Proof.
  cbv zeta. intros Hna Hstale (p0 & Hp0 & Hnv0).
  destruct (non_attack_shape self tn Hna) as (self1 & Hr & Htg & Hv & _).
  rewrite Hv in *. rewrite <- Htg in Hstale. apply stale_iff in Hstale.
  rewrite Hr, move_toward_target_state. simpl target.
  rewrite choose_target_eq, Hstale. simpl target.
  clear Hr Hv Hna Htg Hstale.
  set (d := lighthouses_dict (NewTurn_Lighthouses tn)).
  set (key := fun q => manhattan_distance (my_pos tn) q).
  assert (Hu : In p0 (unvisited_keys d self1)) by (apply unvisited_keys_In; auto).
  destruct (unvisited_keys d self1) as [|u0 us] eqn:Eu; [destruct Hu|].
  clear Hu p0 Hp0 Hnv0. simpl py_min.
  destruct (min_from_split key us u0) as (a & b & Es & Ha & Hb).
  set (m := min_from key u0 us) in *.
  rewrite Es in Eu. unfold unvisited_keys in Eu.
  destruct (filter_split _ _ _ _ _ Eu) as (a' & b' & Ek & Fa & Fb & Fm).
  destruct (keys_split _ _ _ _ Ek) as (l1 & l2 & El & H1 & H2).
  exists m, l1, l2.
  apply negb_true_iff, contains_not_In in Fm.
  repeat split; try assumption.
  - intros q Hq Hnv. apply Ha. rewrite <- Fa. apply filter_In.
    split; [auto|]. apply negb_true_iff, contains_not_In. exact Hnv.
  - intros q Hq Hnv.
    assert (Fq : negb (contains (visited self1) q) = true)
      by (apply negb_true_iff, contains_not_In; exact Hnv).
    specialize (H2 q Hq). apply in_app_or in H2. destruct H2 as [H2|[H2|H2]].
    + assert (key m < key q); [|lia].
      apply Ha. rewrite <- Fa. apply filter_In. auto.
    + subst q. lia.
    + apply Hb. rewrite <- Fb. apply filter_In. auto.
Qed.

Lemma reselection_picks_first_nearest_unvisited_witness :
  exists p l1 l2,
    target (snd (new_turn_action (BotGame_init (Some 1))
                   (obs 0 0 10 [lh 0 4 None; lh 3 0 None; lh 0 3 None]))) = Some p /\
    [(0, 4); (3, 0); (0, 3)] = l1 ++ p :: l2 /\
    ~ In p (visited (snd (new_turn_action (BotGame_init (Some 1))
                      (obs 0 0 10 [lh 0 4 None; lh 3 0 None; lh 0 3 None])))) /\
    (forall q, In q l1 ->
       ~ In q (visited (snd (new_turn_action (BotGame_init (Some 1))
                 (obs 0 0 10 [lh 0 4 None; lh 3 0 None; lh 0 3 None])))) ->
       manhattan_distance (0, 0) p < manhattan_distance (0, 0) q) /\
    (forall q, In q l2 ->
       ~ In q (visited (snd (new_turn_action (BotGame_init (Some 1))
                 (obs 0 0 10 [lh 0 4 None; lh 3 0 None; lh 0 3 None])))) ->
       manhattan_distance (0, 0) p <= manhattan_distance (0, 0) q).
Proof.
  apply (reselection_picks_first_nearest_unvisited (BotGame_init (Some 1))
           (obs 0 0 10 [lh 0 4 None; lh 3 0 None; lh 0 3 None])).
  - discriminate.
  - left. reflexivity.
  - exists (0, 4). split; [left; reflexivity | simpl; tauto].
Defined.

(** The tie of the example above goes to the position listed first. *)
Example tie_goes_to_first_listed :
  target (snd (new_turn_action (BotGame_init (Some 1))
                 (obs 0 0 10 [lh 0 4 None; lh 3 0 None; lh 0 3 None]))) = Some (3, 0).
Proof. reflexivity. Qed.

(** C2 does not hold on the attack branch.  A new bot has no
    target, and the lighthouse at (3,0) is outside [visited] both before
    and after the turn; but the bot stands on another player's lighthouse,
    the call returns with the attack and the target is still none. *)
Lemma reselection_skipped_on_attack :
  let self := BotGame_init (Some 1) in
  let tn := obs 0 0 10 [lh 0 0 (Some 2); lh 3 0 None] in
  target self = None /\
  (In (3, 0) (map lighthouse_key (NewTurn_Lighthouses tn)) /\
   ~ In (3, 0) (visited self) /\
   ~ In (3, 0) (visited (snd (new_turn_action self tn)))) /\
  NewAction_Action (fst (new_turn_action self tn)) = ATTACK /\
  target (snd (new_turn_action self tn)) = None /\
  (forall p, target (snd (new_turn_action self tn)) <> Some p).
Proof.
  cbv zeta. repeat split; try reflexivity.
  - simpl. auto.
  - simpl. tauto.
  - simpl. intros [E|[]]. discriminate E.
  - simpl. discriminate.
Qed.

(** If [visited] were read as the history before the turn, the claim would
    fail on the owned-lighthouse path too: the stored target (0,0) is the
    oldest entry of a full history, recording the bot's position drops it,
    and the target -- no longer in [visited] -- is kept although (8,8) is
    an unvisited lighthouse. *)
Lemma recording_rescues_stored_target :
  let self := mkBotGame (Some 1) None [] [(0, 0); (3, 3); (5, 5)] (Some (0, 0)) 7 in
  let tn := obs 7 7 10 [lh 7 7 (Some 1); lh 8 8 None] in
  In (0, 0) (visited self) /\
  visited (snd (new_turn_action self tn)) = [(3, 3); (5, 5); (7, 7)] /\
  target (snd (new_turn_action self tn)) = Some (0, 0) /\
  fst (new_turn_action self tn) = mkNewAction MOVE (mkPosition 6 6) None.
Proof.
  cbv zeta. repeat split; try reflexivity. simpl. auto.
Qed.

(** ** The join loop *)

Lemma steps_failures (ds : list string) :
  forall (self : BotComs) (tr : list join_event),
  join_steps (Looping, self, tr) (map RaisedRpcError ds)
             (Looping, self, tr ++ flat_map (failed_attempt self) ds).
Proof.
  induction ds as [|d ds IH]; intros self tr; simpl.
  - rewrite app_nil_r. constructor.
  - apply steps_cons with (Looping, self, tr ++ failed_attempt self d).
    + constructor. reflexivity.
    + specialize (IH self (tr ++ failed_attempt self d)).
      rewrite <- app_assoc in IH. exact IH.
Qed.

Lemma steps_app (c1 c2 c3 : join_config) (os1 os2 : list JoinOutcome) :
  join_steps c1 os1 c2 -> join_steps c2 os2 c3 -> join_steps c1 (os1 ++ os2) c3.
Proof.
  intros H1 H2. induction H1 as [c|c o c' os c'' Hs Hss IH]; simpl.
  - exact H2.
  - apply steps_cons with c'; auto.
Qed.

Lemma exited_is_terminal (self : BotComs) (tr : list join_event)
    (o : JoinOutcome) (c' : join_config) :
  ~ join_step (Exited, self, tr) o c'.
Proof. intros H. inversion H. Qed.

(** A run that ends outside the loop is a run of failures closed by one
    successful call, whose identifier is the stored one. *)
Lemma steps_exit_inv (c c' : join_config) (os : list JoinOutcome) :
  join_steps c os c' ->
  fst (fst c) = Looping -> fst (fst c') = Exited ->
  exists ds pid,
    os = map RaisedRpcError ds ++ [Returned pid] /\
    bot_id (snd (fst c')) = Some pid.
Proof.
  intros H. induction H as [c|c o c1 os c2 Hs Hss IH]; intros Hl He.
  - congruence.
  - inversion Hs as [self tr o' st' self' evs Ea]; subst.
    destruct o as [pid|d]; simpl in Ea; injection Ea as <- <- <-.
    + inversion Hss as [|? o2 c3 ? ? Hs2]; subst.
      * exists [], pid. split; reflexivity.
      * inversion Hs2.
    + destruct (IH eq_refl He) as (ds & pid & -> & Hid).
      exists (d :: ds), pid. split; [reflexivity | exact Hid].
Qed.

Lemma sleeps_failures (self : BotComs) (ds : list string) :
  sleeps (flat_map (failed_attempt self) ds) = repeat 1 (length ds).
Proof.
  unfold sleeps. induction ds as [|d ds IH]; simpl.
  - reflexivity.
  - rewrite IH. reflexivity.
Qed.

Lemma wait_to_join_game_from_spec (ds : list string) :
  forall (self : BotComs) (tr : list join_event),
  wait_to_join_game_from self tr (map RaisedRpcError ds) =
    (Looping, self, tr ++ flat_map (failed_attempt self) ds) /\
  forall pid rest,
    wait_to_join_game_from self tr (map RaisedRpcError ds ++ Returned pid :: rest) =
      (Exited, set_bot_id pid self,
       tr ++ flat_map (failed_attempt self) ds ++ joined_events self pid).
Proof.
  induction ds as [|d ds IH]; intros self tr; simpl.
  - rewrite app_nil_r. split; reflexivity.
  - destruct (IH self (tr ++ failed_attempt self d)) as [H1 H2].
    unfold failed_attempt in *. split.
    + rewrite H1, <- app_assoc. reflexivity.
    + intros pid rest. rewrite H2, <- app_assoc. reflexivity.
Qed.

(** C8.  The join loop as a step relation labelled by the outcomes of its
    [Join] calls.  A call that raises [RpcError] leaves the loop running,
    with the bot unchanged, after a notice and a sleep of 1 second; this
    holds for any number of failures in a row, so no failure is fatal and
    no count of retries is a limit.  The first call that returns leaves
    the loop with the returned identifier stored in [bot_id].  A run that
    leaves the loop does so only that way, and once left the loop takes no
    further step, so the stored identifier stays.  The loop run as a
    function of the outcomes gives the same configurations. *)
Theorem join_retries_until_success
    (self : BotComs) (tr : list join_event) (ds : list string) (pid : Z) :
  join_steps (Looping, self, tr) (map RaisedRpcError ds)
             (Looping, self, tr ++ flat_map (failed_attempt self) ds) /\
  sleeps (flat_map (failed_attempt self) ds) = repeat 1 (length ds) /\
  join_steps (Looping, self, tr) (map RaisedRpcError ds ++ [Returned pid])
             (Exited, set_bot_id pid self,
              tr ++ flat_map (failed_attempt self) ds ++ joined_events self pid) /\
  bot_id (set_bot_id pid self) = Some pid /\
  (forall os c',
     join_steps (Looping, self, tr) os c' -> fst (fst c') = Exited ->
     exists ds' pid',
       os = map RaisedRpcError ds' ++ [Returned pid'] /\
       bot_id (snd (fst c')) = Some pid') /\
  (forall self' tr' o c', ~ join_step (Exited, self', tr') o c') /\
  wait_to_join_game_from self tr (map RaisedRpcError ds) =
    (Looping, self, tr ++ flat_map (failed_attempt self) ds) /\
  (forall rest,
     wait_to_join_game_from self tr (map RaisedRpcError ds ++ Returned pid :: rest) =
       (Exited, set_bot_id pid self,
        tr ++ flat_map (failed_attempt self) ds ++ joined_events self pid)).
Proof.
  split; [apply steps_failures|].
  split; [apply sleeps_failures|].
  split.
  { apply steps_app with (Looping, self, tr ++ flat_map (failed_attempt self) ds).
    - apply steps_failures.
    - apply steps_cons
        with (Exited, set_bot_id pid self,
              (tr ++ flat_map (failed_attempt self) ds) ++ joined_events self pid).
      + constructor. reflexivity.
      + rewrite <- app_assoc. constructor. }
  split; [reflexivity|].
  split.
  { intros os c' Hs He. apply (steps_exit_inv _ _ _ Hs); [reflexivity | exact He]. }
  split; [intros; apply exited_is_terminal|].
  destruct (wait_to_join_game_from_spec ds self tr) as [H1 H2].
  split; [exact H1 | intros rest; apply H2].
Qed.

(** Two failed attempts, then a join that returns identifier 7: two
    notices, two sleeps of one second, and the identifier stored. *)
Example join_after_two_failures :
  let self := BotComs_init "bot" "me:3001" "server:50051" false in
  wait_to_join_game self
    [RaisedRpcError "unavailable"; RaisedRpcError "deadline"; Returned 7] =
  (Exited, mkBotComs (Some 7) "bot" "me:3001" "server:50051" false,
   [CallJoin "server:50051" "bot" "me:3001" 1;
    PrintLine (CouldNotJoinGame "unavailable"); Sleep 1;
    CallJoin "server:50051" "bot" "me:3001" 1;
    PrintLine (CouldNotJoinGame "deadline"); Sleep 1;
    CallJoin "server:50051" "bot" "me:3001" 1;
    PrintLine (JoinedGameWithID 7)]).
Proof. reflexivity. Qed.

(** * Further properties of the decision engine *)

(** X1.  [manhattan_distance] is a metric on positions: never negative,
    zero exactly between equal positions, symmetric, and it obeys the
    triangle inequality. *)
Theorem manhattan_distance_metric (a b c : pos) :
  0 <= manhattan_distance a b /\
  (manhattan_distance a b = 0 <-> a = b) /\
  manhattan_distance a b = manhattan_distance b a /\
  manhattan_distance a c <= manhattan_distance a b + manhattan_distance b c.
Proof.
  destruct a as [ax ay], b as [bx b_y], c as [cx cy].
  unfold manhattan_distance; simpl. repeat split; try lia.
  - intros H. f_equal; lia.
  - intros H. inversion H; subst. lia.
Qed.

Lemma min_from_In {A : Type} (key : A -> Z) (l : list A) : forall best : A,
  In (min_from key best l) (best :: l).
Proof.
  induction l as [|x r IH]; intros best; simpl.
  - left. reflexivity.
  - destruct (key x <? key best).
    + right. apply IH.
    + destruct (IH best) as [H|H]; [left | right; right]; exact H.
Qed.

Lemma py_min_In {A : Type} (key : A -> Z) (l : list A) (x : A) :
  py_min key l = Some x -> In x l.
Proof.
  destruct l as [|y r]; simpl; [discriminate|].
  intros H; injection H as <-. apply min_from_In.
Qed.

(** The target [choose_target] leaves: the stored one when it is held and
    unvisited, else a key of the table outside [visited], else none. *)
Lemma choose_target_cases (p : pos) (d : PyDict.t) (self : BotGame) :
  let self' := choose_target p d self in
  (stale self = false /\ target self' = target self /\ target self <> None) \/
  (stale self = true /\ target self' = None /\ unvisited_keys d self = []) \/
  (stale self = true /\
   exists q, target self' = Some q /\ In q (unvisited_keys d self)).
Proof.
  cbv zeta. rewrite choose_target_eq.
  destruct (stale self) eqn:Es.
  - right. simpl.
    destruct (py_min (fun q => manhattan_distance p q) (unvisited_keys d self))
      as [q|] eqn:Em.
    + right. split; [reflexivity|]. exists q. split; [reflexivity|].
      apply py_min_In in Em. exact Em.
    + left. repeat split. destruct (unvisited_keys d self); [reflexivity|discriminate].
  - left. repeat split. unfold stale in Es.
    destruct (target self); [discriminate | discriminate].
Qed.

(** After a turn that does not attack, a held target is outside [visited];
    it is the stored target or the position of a visible lighthouse. *)
Lemma target_after_non_attack (self : BotGame) (tn : NewTurn) (tg : pos) :
  NewAction_Action (fst (new_turn_action self tn)) <> ATTACK ->
  target (snd (new_turn_action self tn)) = Some tg ->
  ~ In tg (visited (snd (new_turn_action self tn))) /\
  (target self = Some tg \/ In tg (map lighthouse_key (NewTurn_Lighthouses tn))).
Proof.
  intros Hna Htg.
  destruct (non_attack_shape self tn Hna) as (self1 & Hr & Ht1 & Hv & _).
  rewrite Hv. rewrite Hr, move_toward_target_state in Htg. simpl target in Htg.
  destruct (choose_target_cases (my_pos tn)
              (lighthouses_dict (NewTurn_Lighthouses tn)) self1)
    as [(Es & E & _)|[(Es & E & _)|(Es & q & E & Hq)]];
    rewrite E in Htg.
  - split.
    + unfold stale in Es. rewrite Htg in Es. apply contains_not_In. exact Es.
    + left. rewrite <- Ht1. exact Htg.
  - discriminate.
  - injection Htg as ->. apply unvisited_keys_In in Hq. destruct Hq as [Hin Hnv].
    split; [exact Hnv | right; exact Hin].
Qed.

(** The item appended to the history is its last entry afterwards. *)
Lemma deque_append_last {A : Type} (d : list A) (x : A) :
  exists front, Deque.append visited_maxlen d x = front ++ [x].
Proof.
  unfold Deque.append, visited_maxlen. rewrite length_app. simpl length.
  destruct (Nat.ltb_spec 3 (length d + 1)).
  - destruct d as [|y d']; simpl in *; [lia|]. exists d'. reflexivity.
  - exists d. reflexivity.
Qed.

(** X2.  A [MOVE] toward a target that is not the bot's position gets
    closer to it: the Manhattan distance from the destination to the
    target is smaller than from the bot's position, and the greater of the
    two coordinate gaps shrinks by exactly one. *)
Theorem move_gets_closer (self : BotGame) (tn : NewTurn) (tx ty : Z) :
  let a := fst (new_turn_action self tn) in
  let cx := X (NewTurn_Position tn) in
  let cy := Y (NewTurn_Position tn) in
  let dx := X (NewAction_Destination a) in
  let dy := Y (NewAction_Destination a) in
  NewAction_Action a = MOVE ->
  target (snd (new_turn_action self tn)) = Some (tx, ty) ->
  (tx, ty) <> my_pos tn ->
  manhattan_distance (dx, dy) (tx, ty) < manhattan_distance (cx, cy) (tx, ty) /\
  Z.max (Z.abs (tx - dx)) (Z.abs (ty - dy)) =
    Z.max (Z.abs (tx - cx)) (Z.abs (ty - cy)) - 1.
Proof.
  cbv zeta. intros Hmove Htg Hne.
  destruct (move_shape self tn Hmove) as (tx' & ty' & E & Hd).
  rewrite Htg in E. injection E as <- <-. rewrite Hd. simpl.
  assert (Hxy : tx <> X (NewTurn_Position tn) \/ ty <> Y (NewTurn_Position tn)).
  { destruct (Z.eq_dec tx (X (NewTurn_Position tn))) as [Ex|Ex]; [|left; exact Ex].
    destruct (Z.eq_dec ty (Y (NewTurn_Position tn))) as [Ey|Ey]; [|right; exact Ey].
    exfalso. apply Hne. unfold my_pos. rewrite Ex, Ey. reflexivity. }
  unfold manhattan_distance. simpl.
  destruct (Z.sgn_spec (tx - X (NewTurn_Position tn))) as [[Hx ->]|[[Hx ->]|[Hx ->]]];
    destruct (Z.sgn_spec (ty - Y (NewTurn_Position tn))) as [[Hy ->]|[[Hy ->]|[Hy ->]]];
    lia.
Qed.

Lemma move_gets_closer_witness :
  manhattan_distance
    (X (NewAction_Destination (fst (new_turn_action (BotGame_init (Some 1))
          (obs 0 0 10 [lh 3 1 None])))),
     Y (NewAction_Destination (fst (new_turn_action (BotGame_init (Some 1))
          (obs 0 0 10 [lh 3 1 None]))))) (3, 1)
    < manhattan_distance (0, 0) (3, 1) /\
  Z.max (Z.abs (3 - X (NewAction_Destination (fst (new_turn_action
                  (BotGame_init (Some 1)) (obs 0 0 10 [lh 3 1 None]))))))
        (Z.abs (1 - Y (NewAction_Destination (fst (new_turn_action
                  (BotGame_init (Some 1)) (obs 0 0 10 [lh 3 1 None]))))))
    = Z.max (Z.abs (3 - 0)) (Z.abs (1 - 0)) - 1.
Proof.
  apply (move_gets_closer (BotGame_init (Some 1)) (obs 0 0 10 [lh 3 1 None]) 3 1).
  - reflexivity.
  - reflexivity.
  - discriminate.
Defined.

(** X3.  After a turn that does not attack, a target that is held is
    never a position of [visited], and it is either the target stored
    before the turn or the position of a lighthouse of this observation. *)
Theorem held_target_is_unvisited (self : BotGame) (tn : NewTurn) (tg : pos) :
  NewAction_Action (fst (new_turn_action self tn)) <> ATTACK ->
  target (snd (new_turn_action self tn)) = Some tg ->
  ~ In tg (visited (snd (new_turn_action self tn))) /\
  (target self = Some tg \/ In tg (map lighthouse_key (NewTurn_Lighthouses tn))).
Proof. exact (target_after_non_attack self tn tg). Qed.

Lemma held_target_is_unvisited_witness :
  ~ In (3, 0) (visited (snd (new_turn_action
        (mkBotGame (Some 1) None [] [(0, 0)] (Some (0, 0)) 2)
        (obs 0 0 10 [lh 0 0 (Some 1); lh 3 0 None])))) /\
  (target (mkBotGame (Some 1) None [] [(0, 0)] (Some (0, 0)) 2) = Some (3, 0) \/
   In (3, 0) (map lighthouse_key
                (NewTurn_Lighthouses (obs 0 0 10 [lh 0 0 (Some 1); lh 3 0 None])))).
Proof.
  apply (held_target_is_unvisited
           (mkBotGame (Some 1) None [] [(0, 0)] (Some (0, 0)) 2)
           (obs 0 0 10 [lh 0 0 (Some 1); lh 3 0 None]) (3, 0)).
  - discriminate.
  - reflexivity.
Defined.

(** A target held after a turn was stored before it or is the position of
    a lighthouse of the observation. *)
Lemma target_step (self : BotGame) (tn : NewTurn) (tg : pos) :
  target (snd (new_turn_action self tn)) = Some tg ->
  target self = Some tg \/ In tg (map lighthouse_key (NewTurn_Lighthouses tn)).
Proof.
  intros Htg.
  destruct (NewAction_Action (fst (new_turn_action self tn))) eqn:Ea.
  - apply (target_after_non_attack self tn tg); [rewrite Ea; discriminate | exact Htg].
  - apply (target_after_non_attack self tn tg); [rewrite Ea; discriminate | exact Htg].
  - left. revert Htg Ea. turn_paths self tn.
    + simpl. auto.
    + move_or_pass; discriminate.
    + move_or_pass; discriminate.
  - apply (target_after_non_attack self tn tg); [rewrite Ea; discriminate | exact Htg].
Qed.

Lemma target_run (turns : list NewTurn) : forall (self : BotGame) (tg : pos),
  target (snd (run self turns)) = Some tg ->
  target self = Some tg \/
  exists tn, In tn turns /\ In tg (map lighthouse_key (NewTurn_Lighthouses tn)).
Proof.
  induction turns as [|tn rest IH]; intros self tg Htg.
  - left. exact Htg.
  - simpl run in Htg.
    pose proof (target_step self tn tg) as Hstep.
    destruct (new_turn_action self tn) as [a self1].
    specialize (IH self1 tg).
    destruct (run self1 rest) as [acts self2]. simpl in Htg, IH, Hstep.
    destruct (IH Htg) as [H1|(tn' & Hin & Hp)].
    + destruct (Hstep H1) as [H0|Hp]; [left; exact H0|].
      right. exists tn. split; [left; reflexivity | exact Hp].
    + right. exists tn'. split; [right; exact Hin | exact Hp].
Qed.

(** X4.  Whatever the observations, the target a bot holds after a
    sequence of turns is the position of a lighthouse that one of those
    observations showed: the bot never heads for a position where it has
    seen no lighthouse. *)
Theorem targets_are_seen_lighthouses
    (pid : PlayerRef) (turns : list NewTurn) (tg : pos) :
  target (snd (run (BotGame_init pid) turns)) = Some tg ->
  exists tn, In tn turns /\ In tg (map lighthouse_key (NewTurn_Lighthouses tn)).
Proof.
  intros Htg. destruct (target_run turns (BotGame_init pid) tg Htg) as [H|H].
  - discriminate H.
  - exact H.
Qed.

Lemma targets_are_seen_lighthouses_witness :
  exists tn,
    In tn [obs 0 0 10 [lh 9 9 None]; obs 1 1 10 []] /\
    In (9, 9) (map lighthouse_key (NewTurn_Lighthouses tn)).
Proof.
  apply (targets_are_seen_lighthouses (Some 1)
           [obs 0 0 10 [lh 9 9 None]; obs 1 1 10 []] (9, 9)).
  reflexivity.
Defined.

(** X5.  A [PASS] is answered exactly when the turn does not attack, the
    stored target is none or is in [visited], and every visible lighthouse
    position is in [visited] -- [visited] as the turn leaves it.  So a
    [PASS] always means that nothing is left to head for. *)
Theorem pass_iff_nothing_left (self : BotGame) (tn : NewTurn) :
  let a := fst (new_turn_action self tn) in
  let self' := snd (new_turn_action self tn) in
  NewAction_Action a = PASS <->
  NewAction_Action a <> ATTACK /\
  (target self = None \/
   exists tg, target self = Some tg /\ In tg (visited self')) /\
  (forall p, In p (map lighthouse_key (NewTurn_Lighthouses tn)) ->
             In p (visited self')).
Proof.
  cbv zeta. split.
  - intros Hpass.
    assert (Hna : NewAction_Action (fst (new_turn_action self tn)) <> ATTACK)
      by (rewrite Hpass; discriminate).
    split; [exact Hna|].
    destruct (non_attack_shape self tn Hna) as (self1 & Hr & Ht1 & Hv & _).
    rewrite Hv, <- Ht1. rewrite Hr in Hpass. clear Hr Hv Hna Ht1.
    destruct (move_toward_target_not_attack tn
                (choose_target (my_pos tn)
                   (lighthouses_dict (NewTurn_Lighthouses tn)) self1))
      as [[E _]|[_ Hnone]]; [rewrite E in Hpass; discriminate|].
    destruct (choose_target_cases (my_pos tn)
                (lighthouses_dict (NewTurn_Lighthouses tn)) self1)
      as [(Es & E & Hsome)|[(Es & E & Hu)|(Es & q & E & Hq)]].
    + rewrite E in Hnone. contradiction.
    + split; [apply stale_iff; exact Es|].
      intros p Hp.
      destruct (contains (visited self1) p) eqn:Ec;
        [apply contains_In; exact Ec | apply contains_not_In in Ec].
      exfalso.
      assert (Hq : In p (unvisited_keys (lighthouses_dict (NewTurn_Lighthouses tn)) self1))
        by (apply unvisited_keys_In; auto).
      rewrite Hu in Hq. destruct Hq.
    + rewrite E in Hnone. discriminate.
  - intros (Hna & Hstale & Hall).
    destruct (non_attack_shape self tn Hna) as (self1 & Hr & Ht1 & Hv & _).
    rewrite Hv, <- Ht1 in Hstale. apply stale_iff in Hstale.
    rewrite Hv in Hall. rewrite Hr. clear Hr Hv Hna Ht1.
    destruct (choose_target_cases (my_pos tn)
                (lighthouses_dict (NewTurn_Lighthouses tn)) self1)
      as [(Es & _)|[(Es & E & Hu)|(Es & q & E & Hq)]].
    + congruence.
    + destruct (move_toward_target_not_attack tn
                  (choose_target (my_pos tn)
                     (lighthouses_dict (NewTurn_Lighthouses tn)) self1))
        as [[_ Hne]|[Ep _]]; [contradiction | exact Ep].
    + apply unvisited_keys_In in Hq. destruct Hq as [Hin Hnv].
      exfalso. apply Hnv. apply Hall. exact Hin.
Qed.

(** X6.  A turn records the bot's position exactly when a lighthouse of
    the observation stands there, whoever owns it: the position is then
    appended to [visited] and is its last entry; with no lighthouse under
    the bot, [visited] is left as it was. *)
Theorem lighthouse_underfoot_is_recorded (self : BotGame) (tn : NewTurn) :
  let self' := snd (new_turn_action self tn) in
  ((exists lh, In lh (NewTurn_Lighthouses tn) /\ lighthouse_key lh = my_pos tn) ->
   visited self' = Deque.append visited_maxlen (visited self) (my_pos tn) /\
   exists front, visited self' = front ++ [my_pos tn]) /\
  (Forall (fun lh => lighthouse_key lh <> my_pos tn) (NewTurn_Lighthouses tn) ->
   visited self' = visited self).
Proof.
  cbv zeta. rewrite visited_after_turn. split.
  - intros (x & Hx & Ek).
    assert (Eu : lighthouse_underfoot tn = true).
    { apply existsb_exists. exists x. split; [exact Hx | now apply pos_eqb_eq]. }
    rewrite Eu. split; [reflexivity | apply deque_append_last].
  - intros Hall. apply get_lighthouses_dict_None, lighthouse_underfoot_get in Hall.
    rewrite Hall. reflexivity.
Qed.

(** X7.  A [MOVE] whose destination is the bot's own position comes only
    from a target stored before the turn: the stored target is the bot's
    position, it is not in [visited], and no lighthouse of the observation
    stands under the bot.  Reselection itself never picks the bot's
    position. *)
Theorem move_in_place_only_for_stored_target (self : BotGame) (tn : NewTurn) :
  let a := fst (new_turn_action self tn) in
  NewAction_Action a = MOVE ->
  NewAction_Destination a = NewTurn_Position tn ->
  target self = Some (my_pos tn) /\
  ~ In (my_pos tn) (visited self) /\
  Forall (fun lh => lighthouse_key lh <> my_pos tn) (NewTurn_Lighthouses tn).
Proof.
  cbv zeta. intros Hmove Hdest.
  destruct (move_shape self tn Hmove) as (tx & ty & Htg & Hd).
  rewrite Hd in Hdest.
  assert (Ex : tx = X (NewTurn_Position tn)).
  { apply (f_equal X) in Hdest. simpl in Hdest.
    destruct (Z.sgn_spec (tx - X (NewTurn_Position tn)))
      as [[H E]|[[H E]|[H E]]]; rewrite E in Hdest; lia. }
  assert (Ey : ty = Y (NewTurn_Position tn)).
  { apply (f_equal Y) in Hdest. simpl in Hdest.
    destruct (Z.sgn_spec (ty - Y (NewTurn_Position tn)))
      as [[H E]|[[H E]|[H E]]]; rewrite E in Hdest; lia. }
  subst tx ty. fold (my_pos tn) in Htg.
  assert (Hna : NewAction_Action (fst (new_turn_action self tn)) <> ATTACK)
    by (rewrite Hmove; discriminate).
  destruct (target_after_non_attack self tn (my_pos tn) Hna Htg) as [Hnv Hfrom].
  rewrite visited_after_turn in Hnv.
  destruct (lighthouse_underfoot tn) eqn:Eu.
  - exfalso. apply Hnv.
    destruct (deque_append_last (visited self) (my_pos tn)) as (front & ->).
    apply in_or_app. right. left. reflexivity.
  - apply lighthouse_underfoot_get, get_lighthouses_dict_None in Eu.
    split; [|split; [exact Hnv | exact Eu]].
    destruct Hfrom as [H|H]; [exact H|].
    exfalso. apply in_map_iff in H. destruct H as (x & Ek & Hx).
    rewrite Forall_forall in Eu. exact (Eu x Hx Ek).
Qed.

Lemma move_in_place_only_for_stored_target_witness :
  target (mkBotGame (Some 1) None [] [] (Some (1, 1)) 2) = Some (my_pos (obs 1 1 10 [lh 4 1 None])) /\
  ~ In (my_pos (obs 1 1 10 [lh 4 1 None]))
       (visited (mkBotGame (Some 1) None [] [] (Some (1, 1)) 2)) /\
  Forall (fun x => lighthouse_key x <> my_pos (obs 1 1 10 [lh 4 1 None]))
         (NewTurn_Lighthouses (obs 1 1 10 [lh 4 1 None])).
Proof.
  apply (move_in_place_only_for_stored_target
           (mkBotGame (Some 1) None [] [] (Some (1, 1)) 2) (obs 1 1 10 [lh 4 1 None])).
  - reflexivity.
  - reflexivity.
Defined.

(** ** The lookup table and the history, as wholes *)

Lemma NoDup_snoc {A : Type} (l : list A) (x : A) :
  NoDup l -> ~ In x l -> NoDup (l ++ [x]).
Proof.
  induction l as [|y r IH]; intros Hnd Hx; simpl.
  - constructor; [intros [] | constructor].
  - inversion Hnd as [|? ? Hy Hr]; subst. constructor.
    + intros Hin. apply in_app_or in Hin. destruct Hin as [Hin|[Hin|[]]].
      * contradiction.
      * apply Hx. left. symmetry. exact Hin.
    + apply IH; [exact Hr|]. intros Hin. apply Hx. right. exact Hin.
Qed.

Lemma keys_lighthouses_dict_NoDup (lhs : list Lighthouse) :
  NoDup (PyDict.keys (lighthouses_dict lhs)).
Proof.
  induction lhs as [|x l IH] using rev_ind.
  - constructor.
  - rewrite keys_lighthouses_dict_snoc.
    destruct (contains _ _) eqn:Ec; [exact IH|].
    apply NoDup_snoc; [exact IH | apply contains_not_In; exact Ec].
Qed.

(** X8.  The table built from an observation has each lighthouse position
    as a key exactly once; a lookup answers a lighthouse of the
    observation that stands at the position asked, and answers nothing
    exactly when no lighthouse of the observation stands there. *)
Theorem lighthouses_dict_sound (lhs : list Lighthouse) (p : pos) :
  NoDup (PyDict.keys (lighthouses_dict lhs)) /\
  (In p (PyDict.keys (lighthouses_dict lhs)) <-> In p (map lighthouse_key lhs)) /\
  (forall x, PyDict.get p (lighthouses_dict lhs) = Some x ->
             In x lhs /\ lighthouse_key x = p) /\
  (PyDict.get p (lighthouses_dict lhs) = None <-> ~ In p (map lighthouse_key lhs)).
Proof.
  split; [apply keys_lighthouses_dict_NoDup|].
  split; [apply In_keys_lighthouses_dict|].
  split.
  - intros x Hget. apply get_lighthouses_dict_Some in Hget.
    destruct Hget as (l1 & l2 & -> & Hk & _). split; [|exact Hk].
    apply in_or_app. right. left. reflexivity.
  - rewrite get_lighthouses_dict_None, Forall_forall, in_map_iff. split.
    + intros Hall (x & Ek & Hx). exact (Hall x Hx Ek).
    + intros Hno x Hx Ek. apply Hno. exists x. auto.
Qed.

(** X9.  After any sequence of turns on a new [BotGame], [visited] is
    exactly the last three positions at which a turn found the bot
    standing on a lighthouse (all of them while there are fewer than
    three), oldest first, repeats included. *)
Theorem visited_is_last_three_stops (pid : PlayerRef) (turns : list NewTurn) :
  visited (snd (run (BotGame_init pid) turns)) = last_n 3 (lighthouse_stops turns).
Proof.
  rewrite visited_run.
  exact (fold_append_last_n (lighthouse_stops turns) []).
Qed.

(** Four stops, the last one twice in a row: the first two have left. *)
Example visited_after_five_turns :
  visited (snd (run (BotGame_init (Some 1))
    [obs 1 1 5 [lh 1 1 (Some 2)]; obs 2 2 5 [lh 9 9 None];
     obs 3 3 5 [lh 3 3 (Some 1)]; obs 4 4 5 [lh 4 4 (Some 2)];
     obs 4 4 5 [lh 4 4 (Some 2)]]))
  = [(3, 3); (4, 4); (4, 4)].
Proof. reflexivity. Qed.

(** * Further properties of the join loop, the servicer and [main] *)

Lemma wait_to_join_game_from_inv (outcomes : list JoinOutcome) :
  forall (self : BotComs) (tr : list join_event),
  Forall (event_of_bot self) tr ->
  let r := wait_to_join_game_from self tr outcomes in
  bot_name (snd (fst r)) = bot_name self /\
  my_address (snd (fst r)) = my_address self /\
  game_server_address (snd (fst r)) = game_server_address self /\
  verbose (snd (fst r)) = verbose self /\
  Forall (event_of_bot self) (snd r) /\
  (fst (fst r) = Looping ->
   bot_id (snd (fst r)) = bot_id self /\
   forall pid, ~ In (Returned pid) outcomes) /\
  (fst (fst r) = Exited -> exists pid, In (Returned pid) outcomes).
Proof.
  induction outcomes as [|o rest IH]; intros self tr Htr; cbv zeta.
  - simpl. repeat split; auto; discriminate.
  - destruct o as [pid|d]; simpl.
    + repeat split; try discriminate.
      * apply Forall_app. split; [exact Htr|].
        destruct (verbose self); repeat constructor.
      * intros _. exists pid. left. reflexivity.
    + assert (Htr' : Forall (event_of_bot self)
                       (tr ++ [call_join self; PrintLine (CouldNotJoinGame d); Sleep 1])).
      { apply Forall_app. split; [exact Htr|]. repeat constructor. }
      specialize (IH self _ Htr'). cbv zeta in IH.
      destruct IH as (H1 & H2 & H3 & H4 & H5 & H6 & H7).
      repeat split; try assumption.
      * apply H6. assumption.
      * intros pid [E|Hin]; [discriminate E|].
        match goal with Hl : _ = Looping |- _ => destruct (H6 Hl) as [_ Hno] end.
        exact (Hno pid Hin).
      * intros He. destruct (H7 He) as (pid & Hin). exists pid. right. exact Hin.
Qed.

(** X10.  Whatever the outcomes of its [Join] calls, the join loop leaves
    the bot's name, addresses and verbosity as they were; every call it
    makes goes to the configured server with the bot's name, its own
    address and a timeout of one second, and every sleep lasts one second;
    the loop has exited exactly when some call returned, and while it has
    not, [bot_id] is untouched. *)
Theorem join_loop_any_outcomes (self : BotComs) (outcomes : list JoinOutcome) :
  let r := wait_to_join_game self outcomes in
  bot_name (snd (fst r)) = bot_name self /\
  my_address (snd (fst r)) = my_address self /\
  game_server_address (snd (fst r)) = game_server_address self /\
  verbose (snd (fst r)) = verbose self /\
  Forall (event_of_bot self) (snd r) /\
  (fst (fst r) = Exited <-> exists pid, In (Returned pid) outcomes) /\
  (fst (fst r) = Looping -> bot_id (snd (fst r)) = bot_id self).
Proof.
  cbv zeta. unfold wait_to_join_game.
  destruct (wait_to_join_game_from_inv outcomes self [] (Forall_nil _))
    as (H1 & H2 & H3 & H4 & H5 & H6 & H7).
  repeat split; try assumption.
  - intros (pid & Hin).
    destruct (fst (fst (wait_to_join_game_from self [] outcomes))) eqn:Es;
      [|reflexivity].
    destruct (H6 eq_refl) as [_ Hno]. exfalso. exact (Hno pid Hin).
  - intros Hl. apply H6. exact Hl.
Qed.

(** ** The servicer *)

(** No path of a turn writes [player_num] or [initial_state]. *)
Lemma new_turn_action_frame (self : BotGame) (tn : NewTurn) :
  player_num (snd (new_turn_action self tn)) = player_num self /\
  initial_state (snd (new_turn_action self tn)) = initial_state self.
Proof.
  turn_paths self tn.
  - split; reflexivity.
  - rewrite move_toward_target_state. simpl.
    destruct (choose_target_frame (my_pos tn)
                (lighthouses_dict (NewTurn_Lighthouses tn))
                (visited_append (my_pos tn) self)) as (Hp & Hi & _).
    split; assumption.
  - rewrite move_toward_target_state. simpl.
    destruct (choose_target_frame (my_pos tn)
                (lighthouses_dict (NewTurn_Lighthouses tn)) self) as (Hp & Hi & _).
    split; assumption.
Qed.

(** No path of a turn reads [initial_state]: replacing it beforehand
    changes neither the action nor the rest of the state. *)
Lemma new_turn_action_with_initial_state
    (i : option NewPlayerInitialState) (g : BotGame) (tn : NewTurn) :
  new_turn_action (with_initial_state i g) tn =
  (fst (new_turn_action g tn), with_initial_state i (snd (new_turn_action g tn))).
Proof.
  assert (Hc : forall p d s,
             choose_target p d (with_initial_state i s) =
             with_initial_state i (choose_target p d s)).
  { intros p d s. unfold choose_target. simpl.
    destruct (match target s with
              | Some tg => contains (visited s) tg
              | None => true
              end); [|reflexivity].
    destruct (filter _ _); reflexivity. }
  unfold new_turn_action. simpl.
  destruct (PyDict.get _ _) as [x|].
  - destruct (PlayerRef_eqb (Lighthouse_Owner x) (player_num g)); simpl.
    + change (visited_append ?p (with_initial_state i g))
        with (with_initial_state i (visited_append p g)).
      rewrite Hc. reflexivity.
    + reflexivity.
  - rewrite Hc. reflexivity.
Qed.

Lemma run_with_initial_state (i : option NewPlayerInitialState)
    (turns : list NewTurn) : forall g : BotGame,
  run (with_initial_state i g) turns =
  (fst (run g turns), with_initial_state i (snd (run g turns))).
Proof.
  induction turns as [|tn rest IH]; intros g.
  - reflexivity.
  - simpl run. rewrite new_turn_action_with_initial_state.
    destruct (new_turn_action g tn) as [a g1]. simpl fst; simpl snd.
    rewrite IH. destruct (run g1 rest) as [acts g2]. reflexivity.
Qed.

Lemma with_initial_state_own (g : BotGame) :
  with_initial_state (initial_state g) g = g.
Proof. destruct g; reflexivity. Qed.

(** The player number is the same after any sequence of turns. *)
Lemma run_player_num (turns : list NewTurn) : forall g : BotGame,
  player_num (snd (run g turns)) = player_num g.
Proof.
  induction turns as [|tn rest IH]; intros g.
  - reflexivity.
  - simpl run.
    destruct (new_turn_action_frame g tn) as [Hp _].
    destruct (new_turn_action g tn) as [a g1]. simpl in Hp.
    specialize (IH g1).
    destruct (run g1 rest) as [acts g2]. simpl in IH |- *.
    rewrite IH. exact Hp.
Qed.

(** A session of the servicer, call by call. *)
Lemma serve_spec (requests : list Request) : forall cs : ClientServer,
  let r := serve cs requests in
  let turns := turns_of requests in
  actions_of (fst (fst r)) = fst (run (bg cs) turns) /\
  bg (snd (fst r)) =
    with_initial_state (last_initial_state (initial_state (bg cs)) requests)
                       (snd (run (bg cs) turns)) /\
  ClientServer_verbose (snd (fst r)) = ClientServer_verbose cs /\
  Forall2 reply_matches requests (fst (fst r)) /\
  turn_numbers (snd r) =
    map (fun k => countT (bg cs) + Z.of_nat k) (seq 0 (length turns)).
Proof.
  induction requests as [|rq rest IH]; intros cs; cbv zeta.
  - simpl. rewrite with_initial_state_own. repeat split. constructor.
  - destruct rq as [name addr|s|tn]; simpl serve.
    + specialize (IH cs). cbv zeta in IH.
      destruct (serve cs rest) as [[resps cs2] out2].
      simpl in IH |- *. destruct IH as (Ha & Hb & Hv & Hr & Hn).
      repeat split; try assumption. constructor; [reflexivity | exact Hr].
    + specialize (IH (mkClientServer (set_initial_state s (bg cs))
                        (ClientServer_verbose cs))). cbv zeta in IH.
      destruct (serve _ rest) as [[resps cs2] out2].
      change (set_initial_state s (bg cs))
        with (with_initial_state (Some s) (bg cs)) in IH.
      simpl bg in IH. rewrite run_with_initial_state in IH.
      simpl in IH |- *. destruct IH as (Ha & Hb & Hv & Hr & Hn).
      repeat split; try assumption.
      * constructor; [reflexivity | exact Hr].
      * destruct (ClientServer_verbose cs); simpl; exact Hn.
    + unfold ClientServer_Turn.
      destruct (new_turn_action_frame (bg cs) tn) as [_ Hi].
      destruct (new_turn_action_bookkeeping (bg cs) tn) as [_ Hc].
      destruct (new_turn_action (bg cs) tn) as [a g1] eqn:Enta. simpl in Hi, Hc.
      specialize (IH (mkClientServer g1 (ClientServer_verbose cs))).
      cbv zeta in IH.
      destruct (serve _ rest) as [[resps cs2] out2].
      simpl in IH |- *. rewrite Enta. destruct IH as (Ha & Hb & Hv & Hr & Hn).
      destruct (run g1 (turns_of rest)) as [acts g2]. simpl in Ha, Hb |- *.
      rewrite Hi in Hb.
      repeat split; try assumption.
      * rewrite Ha. reflexivity.
      * constructor; [exists a; reflexivity | exact Hr].
      * assert (Hn' : turn_numbers out2 =
                      map (fun k => countT (bg cs) + Z.of_nat k)
                          (seq 1 (length (turns_of rest)))).
        { rewrite Hn, <- seq_shift, map_map, Hc.
          apply map_ext. intros k. lia. }
        destruct (ClientServer_verbose cs); simpl; rewrite Hn';
          rewrite Z.add_0_r; reflexivity.
Qed.

(** X11.  The actions a session answers to its [Turn] calls are those of
    the decision engine run over these turns alone, in order: [Join] and
    [InitialState] calls, wherever they fall among the turns, change no
    answer. *)
Theorem turn_answers_ignore_other_calls (cs : ClientServer) (requests : list Request) :
  actions_of (fst (fst (serve cs requests))) =
  fst (run (bg cs) (turns_of requests)).
Proof. apply (serve_spec requests cs). Qed.

(** X12.  After a session the servicer's [BotGame] is the one the turns
    alone would have produced, but for [initial_state], which holds the
    snapshot of the last [InitialState] call (and is as before when there
    was none); the player number and the verbosity are those the servicer
    was built with. *)
Theorem session_state (cs : ClientServer) (requests : list Request) :
  let cs' := snd (fst (serve cs requests)) in
  bg cs' =
    with_initial_state (last_initial_state (initial_state (bg cs)) requests)
                       (snd (run (bg cs) (turns_of requests))) /\
  initial_state (bg cs') = last_initial_state (initial_state (bg cs)) requests /\
  player_num (bg cs') = player_num (bg cs) /\
  ClientServer_verbose cs' = ClientServer_verbose cs.
Proof.
  cbv zeta.
  destruct (serve_spec requests cs) as (_ & Hb & Hv & _).
  rewrite Hb. repeat split; try assumption. simpl.
  apply run_player_num.
Qed.

(** X14.  The "Processing turn" lines of a session started on a new
    servicer are numbered 1, 2, 3, ... : the n-th [Turn] call prints n,
    whatever other calls come in between. *)
Theorem turn_lines_count_from_one
    (bot_id : PlayerRef) (verbose : bool) (requests : list Request) :
  turn_numbers (snd (serve (ClientServer_init bot_id verbose) requests)) =
  map Z.of_nat (seq 1 (length (turns_of requests))).
Proof.
  destruct (serve_spec requests (ClientServer_init bot_id verbose))
    as (_ & _ & _ & _ & Hn).
  rewrite Hn, <- seq_shift, map_map. apply map_ext. intros k. simpl countT. lia.
Qed.

(** ** [ensure_params] and [main] *)

(** X16.  When the parameters are accepted, [main] joins as the bot they
    name and serves only once a [Join] call has returned: while every
    call fails it is still joining and has served nothing; after the first
    call that returns, the servicer plays under the returned identifier,
    and the actions it answers are those of a new decision engine with
    that player number, run over the turns received. *)
Theorem main_serves_under_joined_id
    (argv : parse_args_result) (bn la gs : string) (ds : list string)
    (pid : Z) (rest : list JoinOutcome) (requests : list Request) :
  ensure_params argv = Params bn la gs ->
  main argv (map RaisedRpcError ds) requests =
    StillJoining (Looping, BotComs_init bn la gs false,
                  flat_map (failed_attempt (BotComs_init bn la gs false)) ds) /\
  exists tr session,
    main argv (map RaisedRpcError ds ++ Returned pid :: rest) requests =
      Served (Exited, mkBotComs (Some pid) bn la gs false, tr) session /\
    player_num (bg (snd (fst session))) = Some pid /\
    actions_of (fst (fst session)) =
      fst (run (BotGame_init (Some pid)) (turns_of requests)).
Proof.
  intros Hp. unfold main, wait_to_join_game. rewrite Hp.
  destruct (wait_to_join_game_from_spec ds (BotComs_init bn la gs false) [])
    as [H1 H2].
  rewrite H1, (H2 pid rest). split; [reflexivity|].
  eexists. eexists. split; [reflexivity|].
  unfold start_listening. simpl bot_id. simpl verbose.
  destruct (serve_spec requests (ClientServer_init (Some pid) false))
    as (Ha & Hb & _).
  destruct (serve (ClientServer_init (Some pid) false) requests)
    as [[resps cs'] out].
  simpl in Ha, Hb |- *. split; [|exact Ha].
  rewrite Hb. simpl. apply run_player_num.
Qed.

Lemma main_serves_under_joined_id_witness :
  main (Namespace "random-bot" "me:3001" "server:50051")
       (map RaisedRpcError ["unavailable"]) [TurnRequest (obs 5 5 10 [lh 5 5 (Some 2)])] =
    StillJoining (Looping, BotComs_init "random-bot" "me:3001" "server:50051" false,
                  flat_map (failed_attempt
                              (BotComs_init "random-bot" "me:3001" "server:50051" false))
                           ["unavailable"]) /\
  exists tr session,
    main (Namespace "random-bot" "me:3001" "server:50051")
         (map RaisedRpcError ["unavailable"] ++ Returned 7 :: [])
         [TurnRequest (obs 5 5 10 [lh 5 5 (Some 2)])] =
      Served (Exited, mkBotComs (Some 7) "random-bot" "me:3001" "server:50051" false, tr)
             session /\
    player_num (bg (snd (fst session))) = Some 7 /\
    actions_of (fst (fst session)) =
      fst (run (BotGame_init (Some 7))
             (turns_of [TurnRequest (obs 5 5 10 [lh 5 5 (Some 2)])])).
Proof.
  apply (main_serves_under_joined_id
           (Namespace "random-bot" "me:3001" "server:50051")
           "random-bot" "me:3001" "server:50051" ["unavailable"] 7 []
           [TurnRequest (obs 5 5 10 [lh 5 5 (Some 2)])]).
  reflexivity.
Defined.

(** A whole session: one failed join, then identifier 7; the bot attacks
    the lighthouse of player 2 it stands on. *)
Example session_attacks_as_player_7 :
  exists joined responses cs out,
    main (Namespace "random-bot" "me:3001" "server:50051")
         [RaisedRpcError "unavailable"; Returned 7]
         [InitialStateRequest (InitialStateBytes []);
          TurnRequest (obs 5 5 10 [lh 5 5 (Some 2)])] =
      Served joined (responses, cs, out) /\
    responses = [ReturnedPlayerReady (mkPlayerReady true);
                 ReturnedAction (mkNewAction ATTACK (mkPosition 5 5) (Some 10))] /\
    out = [StartingToListenOn "me:3001"; ReceivingInitialState; ProcessingTurn 1].
Proof. repeat eexists. Qed.
